(** * webchan: typed message channels over a socket

    A shallow embedding of [webchan.go] and [errors.go] (package
    [webchan]) together with the properties its specification states.

    Layout of the development:
    - the part of the Go runtime the package relies on (dynamic types,
      error values with [errors.Is], channels);
    - the two external collaborators, taken as interfaces: the JSON codec
      ([encoding/json]) and the connection ([net.Conn]);
    - the package itself: constructors, the two goroutines (one function
      per loop iteration, plus fuel-indexed drivers), [Close] and the
      helpers;
    - two instances used to run the model: a small JSON codec and an
      in-memory duplex stream;
    - the theorems. *)

From stdpp Require Import base gmap strings list fin_maps.
From Stdlib Require Import ZArith Lia.

Local Open Scope string_scope.

(* ===================================================================== *)
(** ** Go runtime: dynamic types and values *)
(* ===================================================================== *)

(** [reflect.Type]: the identity of a runtime type.  Predeclared types are
    their own constructors; a declared type is identified by its package
    path and name, and additionally carries the package name that the
    [%T] verb prints. *)
Inductive rtype : Type :=
| TBool
| TInt
| TString
| TNamed (pkgPath pkgName name : string).

#[global] Instance rtype_eq_dec : EqDecision rtype.
Proof. solve_decision. Defined.

(** A non-nil [interface{}] value: a dynamic type together with data.
    The nil interface, which has no dynamic type, is not represented. *)
#[local] Set Warnings "-register-all".
Inductive value : Type :=
| VBool (b : bool)
| VInt (n : Z)
| VString (s : string)
| VStruct (pkgPath pkgName name : string) (fields : list (string * value)).
#[local] Set Warnings "+register-all".

(** [reflect.TypeOf(v)] *)
Definition TypeOf (v : value) : rtype :=
  match v with
  | VBool _ => TBool
  | VInt _ => TInt
  | VString _ => TString
  | VStruct p pn n _ => TNamed p pn n
  end.

(** [t.String()], which is what [%T] prints. *)
Definition rtype_String (t : rtype) : string :=
  match t with
  | TBool => "bool"
  | TInt => "int"
  | TString => "string"
  | TNamed _ pn n => pn ++ "." ++ n
  end.

(** [fmt.Sprintf("%T", v)] *)
Definition fmtT (v : value) : string := rtype_String (TypeOf v).

(** [reflect.Value] as far as the package uses it: the zero Value, or the
    result of [reflect.New(t)], a pointer to a fresh zero [t]. *)
Inductive reflect_Value : Type :=
| ZeroValue
| New (t : rtype).

(* ===================================================================== *)
(** ** Go runtime: errors *)
(* ===================================================================== *)

(** Error values.  [EOF] is [io.EOF], [ErrClosed] is [net.ErrClosed];
    [ErrorString] is what [errors.New] and [fmt.Errorf] (without [%w])
    build; [Wrapped] is any library error with an [Unwrap] method, such as
    [*net.OpError].  [sendError] and [recvError] are the package's own
    (errors.go); they have no [Unwrap] method. *)
Inductive goerror : Type :=
| EOF
| ErrClosed
| ErrorString (s : string)
| Wrapped (what : string) (inner : goerror)
| sendError (Err : goerror)
| recvError (Err : goerror).

#[global] Instance goerror_eq_dec : EqDecision goerror.
Proof. solve_decision. Defined.

(** The [Error() string] methods; the last two are errors.go.  (The name
    [Error] itself is kept for the field of [WebChan].) *)
Fixpoint Error_string (e : goerror) : string :=
  match e with
  | EOF => "EOF"
  | ErrClosed => "use of closed network connection"
  | ErrorString s => s
  | Wrapped what inner => what ++ ": " ++ Error_string inner
  | sendError Err => "send error: " ++ Error_string Err
  | recvError Err => "recv error: " ++ Error_string Err
  end.

(** [errors.Is(err, target)]: compare, then follow [Unwrap]. *)
Fixpoint errors_Is (err target : goerror) : bool :=
  bool_decide (err = target) ||
  match err with
  | Wrapped _ inner => errors_Is inner target
  | _ => false
  end.

(** What [panic] carries: a value passed by the program, or a run-time
    error raised by the runtime itself. *)
Inductive panic_value : Type :=
| PanicErr (e : goerror)
| PanicRuntime (msg : string).

(** Whether a panic value is a [*sendError]. *)
Definition is_sendError (pv : panic_value) : bool :=
  match pv with
  | PanicErr (sendError _) => true
  | _ => false
  end.

(* ===================================================================== *)
(** ** Go runtime: channels *)
(* ===================================================================== *)

(** What [make(chan T, n)] depends on besides its arguments.  The runtime
    refuses, with the panic "makechan: size out of range", a negative
    size and a buffer larger than it is prepared to allocate; where that
    limit lies is a matter of the platform.  [makechan_fits w n] says
    that a buffer of [n] elements of [w] machine words each is within
    the limit.  Running out of memory within the limit ends the process
    and is not represented. *)
Class GoRuntime : Type := {
  makechan_fits : nat -> Z -> bool;
}.

Module Chan.

(** A channel: its buffered elements (oldest first), its capacity and
    whether it has been closed.  Values pass through the buffer only:
    the direct hand-over from a sender to a receiver that is already
    waiting, by which alone an unbuffered channel passes a value, is not
    represented, so a send on a channel of capacity 0 always reports
    that it would block. *)
Record t (A : Type) : Type := Mk { buf : list A; cap : nat; closed : bool }.
Global Arguments Mk {A} _ _ _.
Global Arguments buf {A} _.
Global Arguments cap {A} _.
Global Arguments closed {A} _.

(** [make(chan A, n)] for an element type of [elemWords] machine words;
    [None] is the panic on a size that is negative or beyond the limit
    of the runtime. *)
Definition make {rt : GoRuntime} {A} (elemWords : nat) (n : Z) : option (t A) :=
  if (n <? 0)%Z || negb (makechan_fits elemWords n)
  then None
  else Some (Mk [] (Z.to_nat n) false).

Inductive recv_result (A : Type) : Type :=
| RecvValue (x : A) (c : t A)   (* v, ok := <-c with ok = true *)
| RecvClosed                    (* ok = false: closed and drained *)
| RecvWouldBlock.               (* nothing to receive yet *)
Global Arguments RecvValue {A} _ _.
Global Arguments RecvClosed {A}.
Global Arguments RecvWouldBlock {A}.

(** [<-c].  In a [select] with a [default] clause, [RecvWouldBlock]
    selects the default. *)
Definition recv {A} (c : t A) : recv_result A :=
  match buf c with
  | x :: rest => RecvValue x (Mk rest (cap c) (closed c))
  | [] => if closed c then RecvClosed else RecvWouldBlock
  end.

Inductive send_result (A : Type) : Type :=
| SendOk (c : t A)
| SendPanic                     (* send on closed channel *)
| SendWouldBlock.               (* buffer full *)
Global Arguments SendOk {A} _.
Global Arguments SendPanic {A}.
Global Arguments SendWouldBlock {A}.

(** [c <- x].  In a [select] with a [default] clause, [SendWouldBlock]
    selects the default. *)
Definition send {A} (c : t A) (x : A) : send_result A :=
  if closed c then SendPanic
  else if (length (buf c) <? cap c)%nat
       then SendOk (Mk (buf c ++ [x]) (cap c) false)
       else SendWouldBlock.

(** [close(c)]; [None] is the panic on closing a closed channel. *)
Definition close {A} (c : t A) : option (t A) :=
  if closed c then None else Some (Mk (buf c) (cap c) true).

End Chan.

Definition send_on_closed : panic_value := PanicRuntime "send on closed channel".
Definition close_of_closed : panic_value := PanicRuntime "close of closed channel".
Definition makechan_range : panic_value := PanicRuntime "makechan: size out of range".

(* ===================================================================== *)
(** ** External collaborators *)
(* ===================================================================== *)

(** [encoding/json] at the level of whole documents.  [doc] is one
    self-delimited JSON document as it travels on the stream.
    - [Marshal v] is [json.Marshal(v)];
    - [UnmarshalString d] is [json.Unmarshal(d, &s)] for [var s string];
    - [Unmarshal d t] is [json.Unmarshal(d, p)] for [p := reflect.New(t)],
      followed on success by reading the pointee, [p.Elem().Interface()]. *)
Class Codec : Type := {
  doc : Type;
  Marshal : value -> goerror + doc;
  UnmarshalString : doc -> goerror + string;
  Unmarshal : doc -> rtype -> goerror + value;
}.

(** What reading the next document off a connection can do. *)
Inductive read_result (D : Type) : Type :=
| ReadDoc (d : D)
| ReadErr (e : goerror)
| ReadWouldBlock.
Arguments ReadDoc {D} _.
Arguments ReadErr {D} _.
Arguments ReadWouldBlock {D}.

(** [net.Conn].  A connection is a handle [conn] into a shared network
    state [net]; the two ends of one stream are two handles into the same
    state.  [conn_Read] is what the [json.Decoder] bound to the connection
    obtains when it reads up to the end of the next document; it fails on
    transport errors and on malformed input alike, and the state it
    returns accounts for everything consumed.  [conn_Write] takes one
    whole document, as [json.Encoder] issues one write per value, and
    does not park its caller. *)
Class NetConn (D conn net : Type) : Type := {
  conn_Read : conn -> net -> read_result D * net;
  conn_Write : conn -> D -> net -> option goerror * net;
  conn_Close : conn -> net -> option goerror * net;
}.

(* ===================================================================== *)
(** ** Package webchan *)
(* ===================================================================== *)

(** How one goroutine activation ends: the loop goes round again, the
    goroutine returns, it is parked on a blocking operation, or it
    panics. *)
Inductive status : Type :=
| Continue
| Return
| Park
| Panic (pv : panic_value).

Section WebChan.

Context {rt : GoRuntime} {codec : Codec}
        {conn net : Type} {netconn : NetConn doc conn net}.

(** [type WebChan struct].  The [encoder] and [decoder] fields are both
    bound to [soc] for the whole life of the value and hold no state of
    their own in this model, so [soc] stands for all three. *)
Record WebChan : Type := mkWebChan {
  Send : Chan.t value;
  Recv : Chan.t value;
  Error : Chan.t goerror;
  closeRecvChan : Chan.t unit;
  soc : conn;
  allowedTypes : gmap string rtype;
}.

Definition set_Send (c : Chan.t value) (wc : WebChan) : WebChan :=
  mkWebChan c (Recv wc) (Error wc) (closeRecvChan wc) (soc wc) (allowedTypes wc).
Definition set_Recv (c : Chan.t value) (wc : WebChan) : WebChan :=
  mkWebChan (Send wc) c (Error wc) (closeRecvChan wc) (soc wc) (allowedTypes wc).
Definition set_Error (c : Chan.t goerror) (wc : WebChan) : WebChan :=
  mkWebChan (Send wc) (Recv wc) c (closeRecvChan wc) (soc wc) (allowedTypes wc).
Definition set_closeRecvChan (c : Chan.t unit) (wc : WebChan) : WebChan :=
  mkWebChan (Send wc) (Recv wc) (Error wc) c (soc wc) (allowedTypes wc).

(** [wc.encoder.Encode(v)]: marshal, then one write. *)
Definition Encode (wc : WebChan) (v : value) (n : net) : option goerror * net :=
  match Marshal v with
  | inl e => (Some e, n)
  | inr d => conn_Write (soc wc) d n
  end.

(** Outcome of a [Decode] call. *)
Inductive decoded (A : Type) : Type :=
| Decoded (a : A)
| DecodeErr (e : goerror)
| DecodeWouldBlock.
Global Arguments Decoded {A} _.
Global Arguments DecodeErr {A} _.
Global Arguments DecodeWouldBlock {A}.

(** [wc.decoder.Decode(&typeName)] for [var typeName string]. *)
Definition DecodeString (wc : WebChan) (n : net) : decoded string * net :=
  match conn_Read (soc wc) n with
  | (ReadDoc d, n') =>
      (match UnmarshalString d with
       | inl e => DecodeErr e
       | inr s => Decoded s
       end, n')
  | (ReadErr e, n') => (DecodeErr e, n')
  | (ReadWouldBlock, n') => (DecodeWouldBlock, n')
  end.

(** [wc.decoder.Decode(data.Interface())] followed, on success, by
    [data.Elem().Interface()].  [Interface] on the zero Value panics. *)
Definition DecodeInto (wc : WebChan) (data : reflect_Value) (n : net)
  : option (decoded value * net) :=
  match data with
  | ZeroValue => None
  | New t =>
      Some match conn_Read (soc wc) n with
           | (ReadDoc d, n') =>
               (match Unmarshal d t with
                | inl e => DecodeErr e
                | inr v => Decoded v
                end, n')
           | (ReadErr e, n') => (DecodeErr e, n')
           | (ReadWouldBlock, n') => (DecodeWouldBlock, n')
           end
  end.

(** [getAllowedTypeName].  Go visits the entries of a map in an
    unspecified order that may differ from one [range] to the next;
    [rng] lists the keys in the order of this particular visit. *)
Fixpoint getAllowedTypeName_range (m : gmap string rtype) (rng : list string)
    (t : rtype) : string * bool :=
  match rng with
  | [] => ("", false)
  | k :: rest =>
      match m !! k with
      | Some v =>
          if decide (v = t) then (k, true) else getAllowedTypeName_range m rest t
      | None => getAllowedTypeName_range m rest t
      end
  end.

Definition getAllowedTypeName (wc : WebChan) (rng : list string) (data : value)
  : string * bool :=
  let t := TypeOf data in
  getAllowedTypeName_range (allowedTypes wc) rng t.

(** [rng] is a possible visiting order of [wc.allowedTypes]: its keys,
    each once, in any order. *)
Definition range_of (wc : WebChan) (rng : list string) : Prop :=
  rng ≡ₚ (map_to_list (allowedTypes wc)).*1.

(** [createTypeInterfaceReflectPointer] *)
Definition createTypeInterfaceReflectPointer (wc : WebChan) (typeName : string)
  : reflect_Value * bool :=
  match allowedTypes wc !! typeName with
  | None => (ZeroValue, false)
  | Some t => (New t, true)
  end.

(** [tryPushError]: a [select] with one send case and a [default].  The
    message printed in the default case is not modelled. *)
Definition tryPushError (err : goerror) (wc : WebChan) : status * WebChan :=
  match Chan.send (Error wc) err with
  | Chan.SendOk c => (Continue, set_Error c wc)
  | Chan.SendWouldBlock => (Continue, wc)
  | Chan.SendPanic => (Panic send_on_closed, wc)
  end.

(** One iteration of the send goroutine (the body of its [for]). *)
Definition sendIter (rng : list string) (wc : WebChan) (n : net)
  : status * WebChan * net :=
  match Chan.recv (Send wc) with
  | Chan.RecvWouldBlock => (Park, wc, n)
  | Chan.RecvClosed => (Return, wc, n)
  | Chan.RecvValue data c =>
      let wc := set_Send c wc in
      match getAllowedTypeName wc rng data with
      | (_, false) =>
          (Panic (PanicErr (sendError (ErrorString ("type not allowed: " ++ fmtT data)))),
           wc, n)
      | (typeName, true) =>
          let '(err, n) := Encode wc (VString typeName) n in
          let '(err, n) :=
            match err with
            | None => Encode wc data n
            | Some _ => (err, n)
            end in
          match err with
          | Some err =>
              let '(st, wc) := tryPushError (sendError err) wc in (st, wc, n)
          | None => (Continue, wc, n)
          end
      end
  end.

(** The deferred [close(wc.Recv)] of the receive goroutine, run when it
    leaves with status [st]. *)
Definition recvDeferred (st : status) (wc : WebChan) : status * WebChan :=
  match Chan.close (Recv wc) with
  | Some c => (st, set_Recv c wc)
  | None => (Panic close_of_closed, wc)
  end.

(** Classification of a failed [Decode] (the two identical [if err != nil]
    blocks of the receive goroutine). *)
Definition recvDecodeFailed (err : goerror) (wc : WebChan) : status * WebChan :=
  if errors_Is err ErrClosed || errors_Is err EOF
  then (Return, wc)
  else tryPushError (recvError err) wc.

(** The body of the receive goroutine's [for], up to the point where it
    goes round again, returns, parks or panics. *)
Definition recvBody (wc : WebChan) (n : net) : status * WebChan * net :=
  match Chan.recv (closeRecvChan wc) with
  | Chan.RecvValue _ c => (Return, set_closeRecvChan c wc, n)
  | Chan.RecvClosed => (Return, wc, n)
  | Chan.RecvWouldBlock =>
      match DecodeString wc n with
      | (DecodeWouldBlock, n) => (Park, wc, n)
      | (DecodeErr err, n) =>
          let '(st, wc) := recvDecodeFailed err wc in (st, wc, n)
      | (Decoded typeName, n) =>
          match createTypeInterfaceReflectPointer wc typeName with
          | (_, false) =>
              let '(st, wc) :=
                tryPushError
                  (recvError (ErrorString ("type not allowed: " ++ typeName))) wc in
              (st, wc, n)
          | (data, true) =>
              match DecodeInto wc data n with
              | None =>
                  (Panic (PanicRuntime "reflect: call of reflect.Value.Interface on zero Value"),
                   wc, n)
              | Some (DecodeWouldBlock, n) => (Park, wc, n)
              | Some (DecodeErr err, n) =>
                  let '(st, wc) := recvDecodeFailed err wc in (st, wc, n)
              | Some (Decoded v, n) =>
                  match Chan.send (Recv wc) v with
                  | Chan.SendOk c => (Continue, set_Recv c wc, n)
                  | Chan.SendWouldBlock => (Park, wc, n)
                  | Chan.SendPanic => (Panic send_on_closed, wc, n)
                  end
              end
          end
      end
  end.

(** One iteration of the receive goroutine, deferred call included. *)
Definition recvIter (wc : WebChan) (n : net) : status * WebChan * net :=
  match recvBody wc n with
  | (Continue, wc, n) => (Continue, wc, n)
  | (Park, wc, n) => (Park, wc, n)
  | (st, wc, n) => let '(st, wc) := recvDeferred st wc in (st, wc, n)
  end.

(** [Close] *)
Definition Close (wc : WebChan) (n : net) : status * WebChan * net :=
  match Chan.recv (closeRecvChan wc) with
  | Chan.RecvValue _ c =>
      (* ok = true: nothing to do, the select is left *)
      (Return, set_closeRecvChan c wc, n)
  | Chan.RecvClosed =>
      (* Already closed *)
      (Return, wc, n)
  | Chan.RecvWouldBlock =>
      match Chan.close (closeRecvChan wc) with
      | None => (Panic close_of_closed, wc, n)
      | Some c =>
          let wc := set_closeRecvChan c wc in
          match Chan.close (Send wc) with
          | None => (Panic close_of_closed, wc, n)
          | Some s =>
              let wc := set_Send s wc in
              let '(_, n) := conn_Close (soc wc) n in
              (Return, wc, n)
          end
      end
  end.

(** [NewNamedWebChan].  The two [go] statements start the goroutines
    whose iterations are [sendIter] and [recvIter]; the constructor
    itself only builds the value.  [inl] is a panic.  The elements of
    [Send] and [Recv] are interface values and those of [Error] are
    errors, two machine words each; those of [closeRecvChan] are empty
    structs. *)
Definition NewNamedWebChan (soc : conn) (bufLength : Z)
    (allowedTypes : gmap string value) : panic_value + WebChan :=
  let allowedTypesReflect :=
    map_fold (fun k v (acc : gmap string rtype) => <[k := TypeOf v]> acc)
             ∅ allowedTypes in
  match Chan.make 2 bufLength, Chan.make 2 bufLength,
        Chan.make 2 100, Chan.make 0 0 with
  | Some s, Some r, Some e, Some c =>
      inr (mkWebChan s r e c soc allowedTypesReflect)
  | _, _, _, _ => inl makechan_range
  end.

(** [NewWebChan] *)
Definition NewWebChan (soc : conn) (bufLength : Z) (allowedTypes : list value)
  : panic_value + WebChan :=
  let allowedTypesMap :=
    foldl (fun (m : gmap string value) v => <[fmtT v := v]> m) ∅ allowedTypes in
  NewNamedWebChan soc bufLength allowedTypesMap.

(** *** Running a goroutine

    [loop fuel iter i] runs iterations [i], [i+1], ... of a goroutine
    until one of them does not end in [Continue], for at most [fuel]
    iterations.  A final status [Continue] means the goroutine was still
    running when the fuel ran out. *)
Fixpoint loop (fuel : nat) (iter : nat -> WebChan -> net -> status * WebChan * net)
    (i : nat) (wc : WebChan) (n : net) : status * WebChan * net :=
  match fuel with
  | O => (Continue, wc, n)
  | S fuel =>
      match iter i wc n with
      | (Continue, wc, n) => loop fuel iter (S i) wc n
      | r => r
      end
  end.

(** The send goroutine; [rng i] is the order in which its [i]-th
    iteration visits the registry. *)
Definition sendRoutine (fuel : nat) (rng : nat -> list string)
  : WebChan -> net -> status * WebChan * net :=
  loop fuel (fun i => sendIter (rng i)) 0.

(** The receive goroutine. *)
Definition recvRoutine (fuel : nat) : WebChan -> net -> status * WebChan * net :=
  loop fuel (fun _ => recvIter) 0.

(** *** What the caller does with the exported channels *)

(** [wc.Send <- v] *)
Definition push_Send (v : value) (wc : WebChan) : status * WebChan :=
  match Chan.send (Send wc) v with
  | Chan.SendOk c => (Continue, set_Send c wc)
  | Chan.SendWouldBlock => (Park, wc)
  | Chan.SendPanic => (Panic send_on_closed, wc)
  end.

End WebChan.

(* ===================================================================== *)
(** ** A small JSON codec *)
(* ===================================================================== *)

(** A document-level codec for the values above, used to run the model.
    Documents are JSON syntax trees.  Struct fields are decoded by the
    shape of the document (the model carries no struct declarations), and
    only scalar fields are supported. *)
Module MiniJSON.

#[local] Set Warnings "-register-all".
Inductive json : Type :=
| JBool (b : bool)
| JNum (n : Z)
| JStr (s : string)
| JObj (fields : list (string * json)).
#[local] Set Warnings "+register-all".

Fixpoint marshal (v : value) : json :=
  match v with
  | VBool b => JBool b
  | VInt n => JNum n
  | VString s => JStr s
  | VStruct _ _ _ fields =>
      JObj (map (fun kv => match kv with (k, x) => (k, marshal x) end) fields)
  end.

Definition cannot_unmarshal (what : string) (t : rtype) : goerror :=
  ErrorString ("json: cannot unmarshal " ++ what ++ " into Go value of type "
               ++ rtype_String t).

Definition json_kind (d : json) : string :=
  match d with
  | JBool _ => "bool"
  | JNum _ => "number"
  | JStr _ => "string"
  | JObj _ => "object"
  end.

Definition unmarshal_scalar (d : json) : option value :=
  match d with
  | JBool b => Some (VBool b)
  | JNum n => Some (VInt n)
  | JStr s => Some (VString s)
  | JObj _ => None
  end.

Fixpoint unmarshal_fields (fields : list (string * json))
  : option (list (string * value)) :=
  match fields with
  | [] => Some []
  | (k, d) :: rest =>
      match unmarshal_scalar d, unmarshal_fields rest with
      | Some v, Some vs => Some ((k, v) :: vs)
      | _, _ => None
      end
  end.

Definition unmarshal (d : json) (t : rtype) : goerror + value :=
  match t, d with
  | TBool, JBool b => inr (VBool b)
  | TInt, JNum n => inr (VInt n)
  | TString, JStr s => inr (VString s)
  | TNamed p pn n, JObj fields =>
      match unmarshal_fields fields with
      | Some vs => inr (VStruct p pn n vs)
      | None => inl (cannot_unmarshal "object" t)
      end
  | _, _ => inl (cannot_unmarshal (json_kind d) t)
  end.

Definition unmarshal_string (d : json) : goerror + string :=
  match d with
  | JStr s => inr s
  | _ => inl (cannot_unmarshal (json_kind d) TString)
  end.

#[global] Instance codec : Codec := {|
  doc := json;
  Marshal := fun v => inr (marshal v);
  UnmarshalString := unmarshal_string;
  Unmarshal := unmarshal;
|}.

End MiniJSON.

(* ===================================================================== *)
(** ** An in-memory duplex stream *)
(* ===================================================================== *)

(** A reliable, ordered, buffered stream with two ends, behaving like a
    connected socket pair: what one end writes, the other reads in the
    same order; after an end is closed its own operations fail with
    [net.ErrClosed] (wrapped as in [*net.OpError]) and the other end
    reads the data still in flight and then [io.EOF]. *)
Module Pipe.

Inductive side : Type := A | B.

Definition other (s : side) : side :=
  match s with A => B | B => A end.

Record state (D : Type) : Type := Mk {
  toA : list D;          (* in flight towards end A, oldest first *)
  toB : list D;          (* in flight towards end B, oldest first *)
  closedA : bool;
  closedB : bool;
  closeCallsA : nat;     (* number of Close calls made on end A *)
  closeCallsB : nat;
}.
Global Arguments Mk {D} _ _ _ _ _ _.
Global Arguments toA {D} _.
Global Arguments toB {D} _.
Global Arguments closedA {D} _.
Global Arguments closedB {D} _.
Global Arguments closeCallsA {D} _.
Global Arguments closeCallsB {D} _.

(** [net.Pipe()] *)
Definition fresh {D} : state D := Mk [] [] false false 0 0.

Definition inbox {D} (s : side) (p : state D) : list D :=
  match s with A => toA p | B => toB p end.

Definition is_closed {D} (s : side) (p : state D) : bool :=
  match s with A => closedA p | B => closedB p end.

Definition closeCalls {D} (s : side) (p : state D) : nat :=
  match s with A => closeCallsA p | B => closeCallsB p end.

Definition set_inbox {D} (s : side) (l : list D) (p : state D) : state D :=
  match s with
  | A => Mk l (toB p) (closedA p) (closedB p) (closeCallsA p) (closeCallsB p)
  | B => Mk (toA p) l (closedA p) (closedB p) (closeCallsA p) (closeCallsB p)
  end.

Definition mark_closed {D} (s : side) (p : state D) : state D :=
  match s with
  | A => Mk (toA p) (toB p) true (closedB p) (S (closeCallsA p)) (closeCallsB p)
  | B => Mk (toA p) (toB p) (closedA p) true (closeCallsA p) (S (closeCallsB p))
  end.

Definition read {D} (s : side) (p : state D) : read_result D * state D :=
  if is_closed s p then (ReadErr (Wrapped "read pipe" ErrClosed), p)
  else match inbox s p with
       | d :: rest => (ReadDoc d, set_inbox s rest p)
       | [] => if is_closed (other s) p then (ReadErr EOF, p)
               else (ReadWouldBlock, p)
       end.

Definition write {D} (s : side) (d : D) (p : state D) : option goerror * state D :=
  if is_closed s p then (Some (Wrapped "write pipe" ErrClosed), p)
  else if is_closed (other s) p
       then (Some (Wrapped "write pipe" (ErrorString "broken pipe")), p)
       else (None, set_inbox (other s) (inbox (other s) p ++ [d]) p).

Definition close {D} (s : side) (p : state D) : option goerror * state D :=
  ((if is_closed s p then Some (Wrapped "close pipe" ErrClosed) else None),
   mark_closed s p).

#[global] Instance netconn (D : Type) : NetConn D side (state D) := {|
  conn_Read := read;
  conn_Write := write;
  conn_Close := close;
|}.

End Pipe.

(* ===================================================================== *)
(** ** Vocabulary of the statements *)
(* ===================================================================== *)

Section Vocabulary.

Context {rt : GoRuntime} {codec : Codec} {conn : Type}.

(** The runtime agrees to make the four channels of an endpoint whose
    queues have length [bufLength]. *)
Definition construction_fits (bufLength : Z) : Prop :=
  (0 <= bufLength)%Z /\
  makechan_fits 2 bufLength = true /\
  makechan_fits 2 100 = true /\
  makechan_fits 0 0 = true.

(** The shutdown signal has not been given: a receive on
    [closeRecvChan] would block. *)
Definition not_shut_down (wc : WebChan (conn := conn)) : Prop :=
  Chan.recv (closeRecvChan wc) = Chan.RecvWouldBlock.

(** The channel value after the head of its outbound queue has been
    received, [rest] being what remains queued. *)
Definition dequeued (wc : WebChan (conn := conn)) (rest : list value)
  : WebChan (conn := conn) :=
  set_Send (Chan.Mk rest (Chan.cap (Send wc)) (Chan.closed (Send wc))) wc.

(** The channel value after the receive goroutine has left and its
    deferred call has closed the inbound queue. *)
Definition Recv_closed_by_return (wc : WebChan (conn := conn))
  : WebChan (conn := conn) :=
  set_Recv (Chan.Mk (Chan.buf (Recv wc)) (Chan.cap (Recv wc)) true) wc.

(** The channel value after the first [Close]: shutdown signalled and
    outbound queue closed, both keeping what they held. *)
Definition closed_down (wc : WebChan (conn := conn)) : WebChan (conn := conn) :=
  set_Send (Chan.Mk (Chan.buf (Send wc)) (Chan.cap (Send wc)) true)
    (set_closeRecvChan
       (Chan.Mk (Chan.buf (closeRecvChan wc)) (Chan.cap (closeRecvChan wc)) true)
       wc).

(** The type [t] is in the registry, under some name. *)
Definition registered (wc : WebChan (conn := conn)) (t : rtype) : Prop :=
  exists k, allowedTypes wc !! k = Some t.

(** The stream-closed class of errors of the receive goroutine. *)
Definition closed_class (e : goerror) : bool :=
  errors_Is e ErrClosed || errors_Is e EOF.

(** The error queue after an error has been offered to it: appended if
    there is room, dropped otherwise. *)
Definition offered (err : goerror) (q : Chan.t goerror) : Chan.t goerror :=
  if (length (Chan.buf q) <? Chan.cap q)%nat
  then Chan.Mk (Chan.buf q ++ [err]) (Chan.cap q) (Chan.closed q)
  else q.

(** A string that the codec carries unchanged as a type name. *)
Definition name_survives (k : string) : Prop :=
  exists d, Marshal (VString k) = inr d /\ UnmarshalString d = inr k.

(** A value that the codec carries unchanged into a fresh instance of
    its own type. *)
Definition value_survives (v : value) : Prop :=
  exists d, Marshal v = inr d /\ Unmarshal d (TypeOf v) = inr v.

(** The two documents of the frame of [v] sent under the name [k]. *)
Definition is_frame (k : string) (v : value) (fr : list doc) : Prop :=
  exists dk d, fr = [dk; d] /\ Marshal (VString k) = inr dk /\ Marshal v = inr d.

(** The documents [fr] are a frame that the receiving endpoint [wc]
    decodes to [v]: a name it has registered, and a payload that
    decodes into the type registered under that name. *)
Definition decodes_to (wc : WebChan (conn := conn)) (fr : list doc) (v : value)
  : Prop :=
  exists dk d k t,
    fr = [dk; d] /\ UnmarshalString dk = inr k /\
    allowedTypes wc !! k = Some t /\ Unmarshal d t = inr v.

(** The documents [fr] are the frame that the sending endpoint [wc]
    writes for [v]: one of the names of its type, then the payload. *)
Definition encodes_to (wc : WebChan (conn := conn)) (v : value) (fr : list doc)
  : Prop :=
  exists k, (allowedTypes wc !! k = Some (TypeOf v)) /\ is_frame k v fr.

(** The inbound queue with [vs] appended. *)
Definition delivered (vs : list value) (wc : WebChan (conn := conn))
  : WebChan (conn := conn) :=
  set_Recv (Chan.Mk (Chan.buf (Recv wc) ++ vs) (Chan.cap (Recv wc))
                    (Chan.closed (Recv wc))) wc.

(** The sending endpoint [wc] can put [v] on the wire: its type is
    registered, and the codec accepts the value and every name under
    which the type is registered. *)
Definition sendable (wc : WebChan (conn := conn)) (v : value) : Prop :=
  registered wc (TypeOf v) /\
  (exists d, Marshal v = inr d) /\
  (forall k, allowedTypes wc !! k = Some (TypeOf v) ->
             exists dk, Marshal (VString k) = inr dk).

(** The caller sends the values [vs] one after the other; [None] if
    one of the sends does not complete at once. *)
Fixpoint push_all (vs : list value) (wc : WebChan (conn := conn))
  : option (WebChan (conn := conn)) :=
  match vs with
  | [] => Some wc
  | v :: vs =>
      match push_Send v wc with
      | (Continue, wc) => push_all vs wc
      | _ => None
      end
  end.

(** What no operation of the package changes in a channel value: the
    registry, the socket it holds, and the capacities of its queues. *)
Definition same_frame (wc wc' : WebChan (conn := conn)) : Prop :=
  allowedTypes wc' = allowedTypes wc /\
  soc wc' = soc wc /\
  Chan.cap (Send wc') = Chan.cap (Send wc) /\
  Chan.cap (Recv wc') = Chan.cap (Recv wc) /\
  Chan.cap (Error wc') = Chan.cap (Error wc).

(** From [wc] to [wc'] the error queue has only grown, at its tail and by
    errors that satisfy [P]; it has not been closed or reopened, and if
    it was within its capacity it still is. *)
Definition errors_appended (P : goerror -> Prop) (wc wc' : WebChan (conn := conn))
  : Prop :=
  (exists new, Chan.buf (Error wc') = (Chan.buf (Error wc) ++ new)%list /\
               Forall P new) /\
  Chan.closed (Error wc') = Chan.closed (Error wc) /\
  Chan.cap (Error wc') = Chan.cap (Error wc) /\
  ((length (Chan.buf (Error wc)) <= Chan.cap (Error wc))%nat ->
   (length (Chan.buf (Error wc')) <= Chan.cap (Error wc'))%nat).

(** The error is a [*sendError], a [*recvError]. *)
Definition is_send (e : goerror) : Prop := exists e0, e = sendError e0.
Definition is_recv (e : goerror) : Prop := exists e0, e = recvError e0.

(** Every queue of the channel value is empty and open. *)
Definition fresh_queues (wc : WebChan (conn := conn)) : Prop :=
  Send wc = Chan.Mk [] (Chan.cap (Send wc)) false /\
  Recv wc = Chan.Mk [] (Chan.cap (Recv wc)) false /\
  Error wc = Chan.Mk [] 100 false /\
  closeRecvChan wc = Chan.Mk [] 0 false.

End Vocabulary.

Section Steps.

Context {codec : Codec} {conn net : Type} {netconn : NetConn doc conn net}.

(** One thing that can happen to an endpoint and the network it is
    attached to: an iteration of one of its goroutines, a call of
    [Close], the caller sending on [Send] or receiving from [Recv] or
    [Error], and anything at all happening on the network (the peer, the
    transport). *)
Inductive step : WebChan (conn := conn) * net -> WebChan (conn := conn) * net -> Prop :=
| step_sendIter rng wc n :
    step (wc, n) ((sendIter rng wc n).1.2, (sendIter rng wc n).2)
| step_recvIter wc n :
    step (wc, n) ((recvIter wc n).1.2, (recvIter wc n).2)
| step_Close wc n :
    step (wc, n) ((Close wc n).1.2, (Close wc n).2)
| step_push_Send v wc n :
    step (wc, n) ((push_Send v wc).2, n)
| step_take_Recv wc n x c :
    Chan.recv (Recv wc) = Chan.RecvValue x c ->
    step (wc, n) (set_Recv c wc, n)
| step_take_Error wc n x c :
    Chan.recv (Error wc) = Chan.RecvValue x c ->
    step (wc, n) (set_Error c wc, n)
| step_network wc n n' :
    step (wc, n) (wc, n').

End Steps.

(** The two ends of the stream are as open or closed in [p'] as in [p],
    and have seen as many calls of [Close]. *)
Definition same_ends {D : Type} (p p' : Pipe.state D) : Prop :=
  Pipe.closedA p' = Pipe.closedA p /\ Pipe.closedB p' = Pipe.closedB p /\
  Pipe.closeCallsA p' = Pipe.closeCallsA p /\
  Pipe.closeCallsB p' = Pipe.closeCallsB p.

(** From [p] to [p'] the end [s] has done nothing but write, at most [k]
    documents: they are appended to what is in flight towards the other
    end, and nothing else differs. *)
Definition wrote_only {D : Type} (s : Pipe.side) (k : nat) (p p' : Pipe.state D)
  : Prop :=
  same_ends p p' /\
  Pipe.inbox s p' = Pipe.inbox s p /\
  exists new, Pipe.inbox (Pipe.other s) p'
              = (Pipe.inbox (Pipe.other s) p ++ new)%list /\
              (length new <= k)%nat.

(** From [p] to [p'] the end [s] has done nothing but read, at most [k]
    documents: they are taken from the head of what was in flight
    towards it, and nothing else differs. *)
Definition read_only {D : Type} (s : Pipe.side) (k : nat) (p p' : Pipe.state D)
  : Prop :=
  same_ends p p' /\
  Pipe.inbox (Pipe.other s) p' = Pipe.inbox (Pipe.other s) p /\
  exists used, Pipe.inbox s p = (used ++ Pipe.inbox s p')%list /\
               (length used <= k)%nat.

(* ===================================================================== *)
(** ** A concrete configuration *)
(* ===================================================================== *)

(** Two endpoints on the two ends of one in-memory stream, both allowing
    strings under the name "greeting" and points under the name "point",
    with queues of length 100, and a few states of them. *)
Module Example.

(** A runtime for running the model: the range check of [makechan] on a
    64-bit platform, where a word is 8 bytes and a buffer may take up to
    [2^48 - 96] bytes. *)
Definition runtime : GoRuntime := {|
  makechan_fits := fun w n => (8 * Z.of_nat w * n <=? 2 ^ 48 - 96)%Z;
|}.

Definition registry : gmap string value :=
  {[ "greeting" := VString "";
     "point" := VStruct "webchan" "webchan" "point" [("X", VInt 0); ("Y", VInt 0)] ]}.

Definition point12 : value :=
  VStruct "webchan" "webchan" "point" [("X", VInt 1); ("Y", VInt 2)].

Definition endpoint (s : Pipe.side) : WebChan (conn := Pipe.side) :=
  mkWebChan (Chan.Mk [] 100 false) (Chan.Mk [] 100 false)
            (Chan.Mk [] 100 false) (Chan.Mk [] 0 false)
            s (TypeOf <$> registry).

Definition a : WebChan (conn := Pipe.side) := endpoint Pipe.A.
Definition b : WebChan (conn := Pipe.side) := endpoint Pipe.B.

(** One order in which the registry may be visited. *)
Definition rng : list string := (map_to_list (allowedTypes a)).*1.

(** [a] after the caller has sent "hello" and then the point. *)
Definition a_sent : WebChan (conn := Pipe.side) :=
  set_Send (Chan.Mk [VString "hello"; point12] 100 false) a.

(** [a] after the caller has sent an [int], which is not registered. *)
Definition a_sent_int : WebChan (conn := Pipe.side) :=
  set_Send (Chan.Mk [VInt 7] 100 false) a.


(** The stream with the given documents in flight towards [b]. *)
Definition towards_b (docs : list MiniJSON.json) : Pipe.state MiniJSON.json :=
  Pipe.Mk [] docs false false 0 0.

(** The stream after end A has been closed. *)
Definition a_closed : Pipe.state MiniJSON.json :=
  Pipe.Mk [] [] true false 1 0.

(** A codec that refuses one kind of value, as [encoding/json] refuses
    channels, functions and the like: here, structs without fields.
    Otherwise it is the small codec above. *)
Definition picky : Codec := {|
  doc := MiniJSON.json;
  Marshal := fun v =>
    match v with
    | VStruct _ _ _ [] => inl (ErrorString "json: unsupported value")
    | _ => inr (MiniJSON.marshal v)
    end;
  UnmarshalString := MiniJSON.unmarshal_string;
  Unmarshal := MiniJSON.unmarshal;
|}.

(** A value of a registered type that [picky] refuses, and [a] after the
    caller has sent it. *)
Definition no_fields : value := VStruct "webchan" "webchan" "point" [].

Definition a_sent_no_fields : WebChan (conn := Pipe.side) :=
  set_Send (Chan.Mk [no_fields] 100 false) a.

(** An endpoint as [NewWebChan] builds it from a list of prototypes. *)
Definition prototypes : list value := [VString ""; point12].

Definition by_list : WebChan (conn := Pipe.side) :=
  mkWebChan (Chan.Mk [] 100 false) (Chan.Mk [] 100 false)
            (Chan.Mk [] 100 false) (Chan.Mk [] 0 false)
            Pipe.A
            (TypeOf <$> ({[ "string" := VString "";
                            "webchan.point" := point12 ]} : gmap string value)).

(** [a] after the caller has sent two values and closed [Send] by hand. *)
Definition a_sent_closed : WebChan (conn := Pipe.side) :=
  set_Send (Chan.Mk [VString "hello"; point12] 100 true) a.

End Example.

(* ===================================================================== *)
(** ** Basic facts: channels, registry, error queue *)
(* ===================================================================== *)

Section ChanFacts.

Context {rt : GoRuntime} {A : Type}.
Implicit Types c : Chan.t A.

Lemma chan_eta c : Chan.Mk (Chan.buf c) (Chan.cap c) (Chan.closed c) = c.
Proof. by destruct c. Qed.

Lemma recv_would_block c :
  Chan.recv c = Chan.RecvWouldBlock <-> Chan.buf c = [] /\ Chan.closed c = false.
Proof.
  unfold Chan.recv. destruct c as [[|x l] k [|]]; simpl; split;
    (intros [??] || intros ?); (done || by split).
Qed.

Lemma recv_closed c :
  Chan.recv c = Chan.RecvClosed <-> Chan.buf c = [] /\ Chan.closed c = true.
Proof.
  unfold Chan.recv. destruct c as [[|x l] k [|]]; simpl; split;
    (intros [??] || intros ?); (done || by split).
Qed.

Lemma recv_cons c x l :
  Chan.buf c = x :: l ->
  Chan.recv c = Chan.RecvValue x (Chan.Mk l (Chan.cap c) (Chan.closed c)).
Proof. unfold Chan.recv. by intros ->. Qed.

Lemma send_closed c x : Chan.closed c = true -> Chan.send c x = Chan.SendPanic.
Proof. unfold Chan.send. by intros ->. Qed.

Lemma send_room c x :
  Chan.closed c = false -> (length (Chan.buf c) < Chan.cap c)%nat ->
  Chan.send c x = Chan.SendOk (Chan.Mk (Chan.buf c ++ [x]) (Chan.cap c) false).
Proof.
  unfold Chan.send. intros -> Hlt.
  by destruct (Nat.ltb_spec (length (Chan.buf c)) (Chan.cap c)); [|lia].
Qed.

Lemma send_full c x :
  Chan.closed c = false -> (Chan.cap c <= length (Chan.buf c))%nat ->
  Chan.send c x = Chan.SendWouldBlock.
Proof.
  unfold Chan.send. intros -> Hlt.
  by destruct (Nat.ltb_spec (length (Chan.buf c)) (Chan.cap c)); [lia|].
Qed.

Lemma make_fits (w : nat) (n : Z) :
  (0 <= n)%Z -> makechan_fits w n = true ->
  Chan.make (A := A) w n = Some (Chan.Mk [] (Z.to_nat n) false).
Proof.
  unfold Chan.make. intros Hn ->. by destruct (Z.ltb_spec n 0); [lia|].
Qed.

Lemma make_neg (w : nat) (n : Z) : (n < 0)%Z -> Chan.make (A := A) w n = None.
Proof. unfold Chan.make. intros. by destruct (Z.ltb_spec n 0); [|lia]. Qed.

Lemma make_Some (w : nat) (n : Z) (c : Chan.t A) :
  Chan.make w n = Some c ->
  (0 <= n)%Z /\ makechan_fits w n = true /\ c = Chan.Mk [] (Z.to_nat n) false.
Proof.
  unfold Chan.make. destruct (Z.ltb_spec n 0); [done|].
  destruct (makechan_fits w n); [|done]. simpl. by intros [= <-].
Qed.

End ChanFacts.

Section RegistryFacts.

Context {codec : Codec} {conn : Type}.
Implicit Types wc : WebChan (conn := conn).

Lemma getAllowedTypeName_range_found (m : gmap string rtype) rng t k :
  getAllowedTypeName_range m rng t = (k, true) -> m !! k = Some t.
Proof.
  induction rng as [|k' rng IH]; simpl; [done|].
  destruct (m !! k') as [v|] eqn:Hk'; [|done].
  destruct (decide (v = t)) as [->|]; [|done].
  by intros [= <-].
Qed.

Lemma getAllowedTypeName_range_none (m : gmap string rtype) rng t k :
  getAllowedTypeName_range m rng t = (k, false) ->
  k = "" /\ forall k', k' ∈ rng -> m !! k' <> Some t.
Proof.
  induction rng as [|k' rng IH]; simpl.
  - intros [= <-]. split; [done|]. intros k' H. by apply elem_of_nil in H.
  - destruct (m !! k') as [v|] eqn:Hk'.
    + destruct (decide (v = t)) as [->|Hne]; [done|].
      intros H. destruct (IH H) as [-> Hno]. split; [done|].
      intros k'' [->|Hin]%elem_of_cons; [congruence | by apply Hno].
    + intros H. destruct (IH H) as [-> Hno]. split; [done|].
      intros k'' [->|Hin]%elem_of_cons; [congruence | by apply Hno].
Qed.

Lemma getAllowedTypeName_set_Send c wc rng data :
  getAllowedTypeName (set_Send c wc) rng data = getAllowedTypeName wc rng data.
Proof. done. Qed.

(** A successful lookup by value returns a name registered for the
    value's type, whatever the visiting order. *)
Lemma getAllowedTypeName_true wc rng data k :
  getAllowedTypeName wc rng data = (k, true) ->
  allowedTypes wc !! k = Some (TypeOf data).
Proof. apply getAllowedTypeName_range_found. Qed.

(** The lookup by value fails only when the type is not registered. *)
Lemma getAllowedTypeName_false wc rng data k :
  range_of wc rng ->
  getAllowedTypeName wc rng data = (k, false) ->
  ~ registered wc (TypeOf data).
Proof.
  unfold range_of, getAllowedTypeName, registered. intros Hperm H [k' Hk'].
  apply getAllowedTypeName_range_none in H as [_ Hno].
  apply (Hno k'); [|done]. rewrite Hperm.
  apply list_elem_of_fmap. exists (k', TypeOf data). split; [done|].
  by apply elem_of_map_to_list.
Qed.

Lemma getAllowedTypeName_registered wc rng data :
  range_of wc rng ->
  registered wc (TypeOf data) ->
  exists k, getAllowedTypeName wc rng data = (k, true)
            /\ allowedTypes wc !! k = Some (TypeOf data).
Proof.
  intros Hperm Hreg.
  destruct (getAllowedTypeName wc rng data) as [k [|]] eqn:E.
  - exists k. split; [done|]. by eapply getAllowedTypeName_true.
  - by apply getAllowedTypeName_false in E.
Qed.

Lemma getAllowedTypeName_unregistered wc rng data :
  ~ registered wc (TypeOf data) ->
  getAllowedTypeName wc rng data = ("", false).
Proof.
  intros Hreg.
  destruct (getAllowedTypeName wc rng data) as [k [|]] eqn:E.
  - apply getAllowedTypeName_true in E. destruct Hreg. by exists k.
  - unfold getAllowedTypeName in E.
    by apply getAllowedTypeName_range_none in E as [-> _].
Qed.

(** The loop that fills [allowedTypesReflect] computes the pointwise
    image of the prototypes under [reflect.TypeOf]. *)
Lemma allowedTypesReflect_fmap (m : gmap string value) :
  map_fold (fun k v (acc : gmap string rtype) => <[k := TypeOf v]> acc) ∅ m
  = TypeOf <$> m.
Proof.
  apply (map_fold_weak_ind (fun r m => r = TypeOf <$> m)).
  - by rewrite fmap_empty.
  - intros i x m' r _ ->. by rewrite fmap_insert.
Qed.

End RegistryFacts.

Section ErrorQueueFacts.

Context {codec : Codec} {conn : Type}.
Implicit Types wc : WebChan (conn := conn).

Lemma set_Error_same wc : set_Error (Error wc) wc = wc.
Proof. by destruct wc. Qed.

(** On an open error queue [tryPushError] always completes, and leaves
    the queue as [offered] describes. *)
Lemma tryPushError_open err wc :
  Chan.closed (Error wc) = false ->
  tryPushError err wc = (Continue, set_Error (offered err (Error wc)) wc).
Proof.
  intros Hopen. unfold tryPushError, offered, Chan.send. rewrite Hopen.
  destruct (length (Chan.buf (Error wc)) <? Chan.cap (Error wc))%nat; [done|].
  by rewrite set_Error_same.
Qed.

Lemma offered_closed err q : Chan.closed (offered err q) = Chan.closed q.
Proof. unfold offered. by destruct (_ <? _)%nat. Qed.

Lemma offered_cap err q : Chan.cap (offered err q) = Chan.cap q.
Proof. unfold offered. by destruct (_ <? _)%nat. Qed.



End ErrorQueueFacts.

Section ConstructorFacts.

Context {rt : GoRuntime} {codec : Codec} {conn : Type}.
Implicit Types wc : WebChan (conn := conn).

(** What [NewNamedWebChan] builds, for a buffer length that [make]
    accepts. *)
Lemma NewNamedWebChan_fits (s : conn) (bufLength : Z) (m : gmap string value) :
  construction_fits bufLength ->
  NewNamedWebChan s bufLength m
  = inr (mkWebChan (Chan.Mk [] (Z.to_nat bufLength) false)
                   (Chan.Mk [] (Z.to_nat bufLength) false)
                   (Chan.Mk [] 100 false)
                   (Chan.Mk [] 0 false)
                   s (TypeOf <$> m)).
Proof.
  intros (Hb & H1 & H2 & H3). unfold NewNamedWebChan.
  rewrite allowedTypesReflect_fmap.
  rewrite (make_fits 2 bufLength), (make_fits 2 100), (make_fits 0 0)
    by (done || lia).
  done.
Qed.

Lemma NewNamedWebChan_neg (s : conn) (bufLength : Z) (m : gmap string value) :
  (bufLength < 0)%Z -> NewNamedWebChan s bufLength m = inl makechan_range.
Proof. intros Hb. unfold NewNamedWebChan. by rewrite make_neg. Qed.

Lemma NewNamedWebChan_inr_fits (s : conn) (bufLength : Z) (m : gmap string value) wc :
  NewNamedWebChan s bufLength m = inr wc -> construction_fits bufLength.
Proof.
  unfold NewNamedWebChan.
  destruct (Chan.make 2 bufLength) as [c1|] eqn:H1; [|done].
  destruct (Chan.make 2 100) as [c3|] eqn:H3; [|done].
  destruct (Chan.make 0 0) as [c4|] eqn:H4; [|done].
  intros _.
  apply make_Some in H1 as (? & ? & _). apply make_Some in H3 as (_ & ? & _).
  apply make_Some in H4 as (_ & ? & _). by repeat split.
Qed.

Lemma NewNamedWebChan_inr (s : conn) (bufLength : Z) (m : gmap string value) wc :
  NewNamedWebChan s bufLength m = inr wc ->
  (0 <= bufLength)%Z /\
  wc = mkWebChan (Chan.Mk [] (Z.to_nat bufLength) false)
                 (Chan.Mk [] (Z.to_nat bufLength) false)
                 (Chan.Mk [] 100 false)
                 (Chan.Mk [] 0 false)
                 s (TypeOf <$> m).
Proof.
  intros H. pose proof (NewNamedWebChan_inr_fits s bufLength m wc H) as Hfits.
  rewrite NewNamedWebChan_fits in H by done.
  split; [by destruct Hfits|]. by injection H as <-.
Qed.

(** Whether [NewNamedWebChan] returns a channel is a matter of the
    buffer length and the runtime alone. *)
Lemma NewNamedWebChan_returns (s : conn) (bufLength : Z) (m : gmap string value) :
  (exists wc, NewNamedWebChan s bufLength m = inr wc) <-> construction_fits bufLength.
Proof.
  split.
  - intros [wc H]. by eapply NewNamedWebChan_inr_fits.
  - intros Hfits. rewrite NewNamedWebChan_fits by done. by eexists.
Qed.

(** The map that [NewWebChan] derives from its prototype list: under
    each name, the last prototype whose [%T] is that name. *)
Lemma allowedTypesMap_lookup (l : list value) (k : string) :
  foldl (fun (m : gmap string value) v => <[fmtT v := v]> m) ∅ l !! k
  = last (filter (fun v => fmtT v = k) l).
Proof.
  induction l as [|v l IH] using rev_ind; [done|].
  rewrite foldl_app, filter_app. simpl.
  rewrite filter_cons, filter_nil.
  destruct (decide (fmtT v = k)) as [->|Hne].
  - by rewrite lookup_insert_eq, last_snoc.
  - rewrite lookup_insert_ne by done. by rewrite app_nil_r.
Qed.

End ConstructorFacts.

(* ===================================================================== *)
(** ** The send goroutine *)
(* ===================================================================== *)

Section SendGoroutine.

Context {codec : Codec} {conn net : Type} {netconn : NetConn doc conn net}.
Implicit Types (wc : WebChan (conn := conn)) (n : net).

Lemma sendIter_empty_open rng wc n :
  Chan.buf (Send wc) = [] -> Chan.closed (Send wc) = false ->
  sendIter rng wc n = (Park, wc, n).
Proof.
  intros Hb Hc. unfold sendIter.
  by rewrite (proj2 (recv_would_block (Send wc))).
Qed.

Lemma sendIter_empty_closed rng wc n :
  Chan.buf (Send wc) = [] -> Chan.closed (Send wc) = true ->
  sendIter rng wc n = (Return, wc, n).
Proof.
  intros Hb Hc. unfold sendIter.
  by rewrite (proj2 (recv_closed (Send wc))).
Qed.

Lemma sendIter_unregistered rng wc n data rest :
  Chan.buf (Send wc) = data :: rest ->
  ~ registered wc (TypeOf data) ->
  sendIter rng wc n
  = (Panic (PanicErr (sendError (ErrorString ("type not allowed: " ++ fmtT data)))),
     dequeued wc rest, n).
Proof.
  intros Hbuf Hun. unfold sendIter.
  rewrite (recv_cons _ _ _ Hbuf).
  rewrite getAllowedTypeName_set_Send.
  by rewrite (getAllowedTypeName_unregistered wc rng data Hun).
Qed.

(** The send iteration on a value found in the registry, in terms of
    the two [Encode] calls. *)
Lemma sendIter_found rng wc n data rest k :
  Chan.buf (Send wc) = data :: rest ->
  getAllowedTypeName wc rng data = (k, true) ->
  sendIter rng wc n
  = match Encode (dequeued wc rest) (VString k) n with
    | (Some e, n1) =>
        let '(st, wc') := tryPushError (sendError e) (dequeued wc rest) in
        (st, wc', n1)
    | (None, n1) =>
        match Encode (dequeued wc rest) data n1 with
        | (Some e, n2) =>
            let '(st, wc') := tryPushError (sendError e) (dequeued wc rest) in
            (st, wc', n2)
        | (None, n2) => (Continue, dequeued wc rest, n2)
        end
    end.
Proof.
  intros Hbuf Hk. unfold sendIter.
  rewrite (recv_cons _ _ _ Hbuf), getAllowedTypeName_set_Send, Hk.
  fold (dequeued wc rest).
  destruct (Encode (dequeued wc rest) (VString k) n) as [[e|] n1]; [done|].
  by destruct (Encode (dequeued wc rest) data n1) as [[e|] n2].
Qed.

Lemma sendIter_Return rng wc n :
  (sendIter rng wc n).1.1 = Return <->
  Chan.buf (Send wc) = [] /\ Chan.closed (Send wc) = true.
Proof.
  split.
  - unfold sendIter, Chan.recv.
    destruct (Chan.buf (Send wc)) as [|data rest].
    + by destruct (Chan.closed (Send wc)).
    + destruct (getAllowedTypeName _ rng data) as [k [|]]; [|done].
      destruct (Encode _ (VString k) n) as [[e|] n1].
      * simpl. unfold tryPushError.
        destruct (Chan.send _ _); simpl; done.
      * destruct (Encode _ data n1) as [[e|] n2]; simpl; [|done].
        unfold tryPushError. destruct (Chan.send _ _); simpl; done.
  - intros [Hb Hc]. by rewrite sendIter_empty_closed.
Qed.

(** C3.  Sending a value whose runtime type is not in the registry:
    the iteration of the send goroutine that dequeues it panics with
    the value [&sendError{"type not allowed: <type>"}], and the network
    state is the one it started from, for every implementation of the
    connection and every order of visiting the registry: no operation
    on the stream is made, neither for the type name nor for the
    payload.  The goroutine as a whole stops with that panic. *)
Theorem send_unregistered_panics_before_writing
    (rng : list string) wc n (data : value) (rest : list value) :
  Chan.buf (Send wc) = data :: rest ->
  ~ registered wc (TypeOf data) ->
  let pv := PanicErr (sendError (ErrorString ("type not allowed: " ++ fmtT data))) in
  sendIter rng wc n = (Panic pv, dequeued wc rest, n) /\
  forall fuel rngs, rngs 0%nat = rng ->
    sendRoutine (S fuel) rngs wc n = (Panic pv, dequeued wc rest, n).
Proof.
  intros Hbuf Hun pv. split.
  - by apply sendIter_unregistered.
  - intros fuel rngs <-. unfold sendRoutine. simpl.
    by rewrite (sendIter_unregistered _ wc n data rest Hbuf Hun).
Qed.

(** C9, as the code has it.  The panic raised for an unregistered
    outgoing value carries a [*sendError] (wrapping the message
    "type not allowed: <type>"); what sets it apart from a reported
    Send error is the channel it travels on: it is raised as a panic
    and the error queue is left as it was. *)
Theorem unregistered_panic_carries_sendError
    (rng : list string) wc n (data : value) (rest : list value) :
  Chan.buf (Send wc) = data :: rest ->
  ~ registered wc (TypeOf data) ->
  exists pv wc',
    sendIter rng wc n = (Panic pv, wc', n) /\
    pv = PanicErr (sendError (ErrorString ("type not allowed: " ++ fmtT data))) /\
    is_sendError pv = true /\
    Error wc' = Error wc.
Proof.
  intros Hbuf Hun. eexists _, _. split; [by apply sendIter_unregistered|].
  done.
Qed.

End SendGoroutine.

(* ===================================================================== *)
(** ** The receive goroutine *)
(* ===================================================================== *)

Section RecvGoroutine.

Context {codec : Codec} {conn net : Type} {netconn : NetConn doc conn net}.
Implicit Types (wc : WebChan (conn := conn)) (n : net).

Lemma recvDeferred_open st wc :
  Chan.closed (Recv wc) = false ->
  recvDeferred st wc = (st, Recv_closed_by_return wc).
Proof. intros H. unfold recvDeferred, Chan.close. by rewrite H. Qed.

Lemma recvIter_shut_down wc n :
  ~ not_shut_down wc -> Chan.closed (Recv wc) = false ->
  exists wc', recvIter wc n = (Return, wc', n) /\ Chan.closed (Recv wc') = true.
Proof.
  unfold not_shut_down. intros Hs Hr. unfold recvIter, recvBody.
  destruct (Chan.recv (closeRecvChan wc)) as [x c| |]; [| |done].
  - rewrite recvDeferred_open by done. eauto.
  - rewrite recvDeferred_open by done. eauto.
Qed.

Lemma recvIter_name_would_block wc n n1 :
  not_shut_down wc ->
  DecodeString wc n = (DecodeWouldBlock, n1) ->
  recvIter wc n = (Park, wc, n1).
Proof.
  unfold not_shut_down. intros Hs Hd. unfold recvIter, recvBody.
  by rewrite Hs, Hd.
Qed.

Lemma recvIter_name_error wc n e n1 :
  not_shut_down wc -> Chan.closed (Error wc) = false ->
  DecodeString wc n = (DecodeErr e, n1) ->
  closed_class e = false ->
  recvIter wc n = (Continue, set_Error (offered (recvError e) (Error wc)) wc, n1).
Proof.
  unfold not_shut_down, closed_class. intros Hs He Hd Hc.
  unfold recvIter, recvBody. rewrite Hs, Hd. unfold recvDecodeFailed.
  rewrite Hc. by rewrite tryPushError_open.
Qed.

Lemma recvIter_name_closed wc n e n1 :
  not_shut_down wc -> Chan.closed (Recv wc) = false ->
  DecodeString wc n = (DecodeErr e, n1) ->
  closed_class e = true ->
  recvIter wc n = (Return, Recv_closed_by_return wc, n1).
Proof.
  unfold not_shut_down, closed_class. intros Hs Hr Hd Hc.
  unfold recvIter, recvBody. rewrite Hs, Hd. unfold recvDecodeFailed.
  rewrite Hc. by rewrite recvDeferred_open.
Qed.

Lemma recvIter_name_unregistered wc n k n1 :
  not_shut_down wc -> Chan.closed (Error wc) = false ->
  DecodeString wc n = (Decoded k, n1) ->
  allowedTypes wc !! k = None ->
  recvIter wc n
  = (Continue,
     set_Error (offered (recvError (ErrorString ("type not allowed: " ++ k)))
                        (Error wc)) wc,
     n1).
Proof.
  unfold not_shut_down. intros Hs He Hd Hk.
  unfold recvIter, recvBody. rewrite Hs, Hd.
  unfold createTypeInterfaceReflectPointer. rewrite Hk.
  by rewrite tryPushError_open.
Qed.

Lemma recvIter_payload_would_block wc n k t n1 n2 :
  not_shut_down wc ->
  DecodeString wc n = (Decoded k, n1) ->
  allowedTypes wc !! k = Some t ->
  DecodeInto wc (New t) n1 = Some (DecodeWouldBlock, n2) ->
  recvIter wc n = (Park, wc, n2).
Proof.
  unfold not_shut_down. intros Hs Hd Hk Hp.
  unfold recvIter, recvBody. rewrite Hs, Hd.
  unfold createTypeInterfaceReflectPointer. by rewrite Hk, Hp.
Qed.

Lemma recvIter_payload_error wc n k t n1 e n2 :
  not_shut_down wc -> Chan.closed (Error wc) = false ->
  DecodeString wc n = (Decoded k, n1) ->
  allowedTypes wc !! k = Some t ->
  DecodeInto wc (New t) n1 = Some (DecodeErr e, n2) ->
  closed_class e = false ->
  recvIter wc n = (Continue, set_Error (offered (recvError e) (Error wc)) wc, n2).
Proof.
  unfold not_shut_down, closed_class. intros Hs He Hd Hk Hp Hc.
  unfold recvIter, recvBody. rewrite Hs, Hd.
  unfold createTypeInterfaceReflectPointer. rewrite Hk, Hp.
  unfold recvDecodeFailed. rewrite Hc. by rewrite tryPushError_open.
Qed.

Lemma recvIter_payload_closed wc n k t n1 e n2 :
  not_shut_down wc -> Chan.closed (Recv wc) = false ->
  DecodeString wc n = (Decoded k, n1) ->
  allowedTypes wc !! k = Some t ->
  DecodeInto wc (New t) n1 = Some (DecodeErr e, n2) ->
  closed_class e = true ->
  recvIter wc n = (Return, Recv_closed_by_return wc, n2).
Proof.
  unfold not_shut_down, closed_class. intros Hs Hr Hd Hk Hp Hc.
  unfold recvIter, recvBody. rewrite Hs, Hd.
  unfold createTypeInterfaceReflectPointer. rewrite Hk, Hp.
  unfold recvDecodeFailed. rewrite Hc. by rewrite recvDeferred_open.
Qed.

Lemma recvIter_delivered wc n k t n1 v n2 :
  not_shut_down wc -> Chan.closed (Recv wc) = false ->
  (length (Chan.buf (Recv wc)) < Chan.cap (Recv wc))%nat ->
  DecodeString wc n = (Decoded k, n1) ->
  allowedTypes wc !! k = Some t ->
  DecodeInto wc (New t) n1 = Some (Decoded v, n2) ->
  recvIter wc n
  = (Continue,
     set_Recv (Chan.Mk (Chan.buf (Recv wc) ++ [v]) (Chan.cap (Recv wc)) false) wc,
     n2).
Proof.
  unfold not_shut_down. intros Hs Hr Hroom Hd Hk Hp.
  unfold recvIter, recvBody. rewrite Hs, Hd.
  unfold createTypeInterfaceReflectPointer. rewrite Hk, Hp.
  by rewrite send_room.
Qed.

Lemma recvIter_backpressure wc n k t n1 v n2 :
  not_shut_down wc -> Chan.closed (Recv wc) = false ->
  (Chan.cap (Recv wc) <= length (Chan.buf (Recv wc)))%nat ->
  DecodeString wc n = (Decoded k, n1) ->
  allowedTypes wc !! k = Some t ->
  DecodeInto wc (New t) n1 = Some (Decoded v, n2) ->
  recvIter wc n = (Park, wc, n2).
Proof.
  unfold not_shut_down. intros Hs Hr Hroom Hd Hk Hp.
  unfold recvIter, recvBody. rewrite Hs, Hd.
  unfold createTypeInterfaceReflectPointer. rewrite Hk, Hp.
  by rewrite send_full.
Qed.

Lemma DecodeString_doc wc n d n1 :
  conn_Read (soc wc) n = (ReadDoc d, n1) ->
  DecodeString wc n
  = (match UnmarshalString d with inl e => DecodeErr e | inr s => Decoded s end, n1).
Proof. intros H. unfold DecodeString. by rewrite H. Qed.

Lemma DecodeInto_doc wc t n d n1 :
  conn_Read (soc wc) n = (ReadDoc d, n1) ->
  DecodeInto wc (New t) n
  = Some (match Unmarshal d t with inl e => DecodeErr e | inr v => Decoded v end, n1).
Proof. intros H. unfold DecodeInto. by rewrite H. Qed.

End RecvGoroutine.

(* ===================================================================== *)
(** ** Error handling of the two goroutines *)
(* ===================================================================== *)

Section ErrorHandling.

Context {codec : Codec} {conn net : Type} {netconn : NetConn doc conn net}.
Implicit Types (wc : WebChan (conn := conn)) (n : net).

(** C4.  A frame whose type name is not registered on the receiving
    endpoint.  The iteration that reads the name offers the Recv error
    "type not allowed: <name>" to the error queue and ends in
    [Continue]; the network state it leaves is the one right after the
    read of the name, so the payload has not been consumed.  The next
    iteration therefore reads the payload document [d2] as a type name:
    if it is not a JSON string the failure to decode it as one is
    reported, and if it is the string [k2] then [k2] is looked up in
    the registry. *)
Theorem recv_unregistered_name_reports_and_desyncs
    wc n (d : doc) n1 (typeName : string) :
  not_shut_down wc ->
  Chan.closed (Error wc) = false ->
  conn_Read (soc wc) n = (ReadDoc d, n1) ->
  UnmarshalString d = inr typeName ->
  allowedTypes wc !! typeName = None ->
  let err := recvError (ErrorString ("type not allowed: " ++ typeName)) in
  let wc' := set_Error (offered err (Error wc)) wc in
  recvIter wc n = (Continue, wc', n1) /\
  Recv wc' = Recv wc /\
  forall (d2 : doc) n2,
    conn_Read (soc wc) n1 = (ReadDoc d2, n2) ->
    DecodeString wc' n1
    = (match UnmarshalString d2 with
       | inl e => DecodeErr e
       | inr s => Decoded s
       end, n2) /\
    match UnmarshalString d2 with
    | inl e =>
        closed_class e = false ->
        recvIter wc' n1
        = (Continue, set_Error (offered (recvError e) (Error wc')) wc', n2)
    | inr k2 =>
        allowedTypes wc !! k2 = None ->
        recvIter wc' n1
        = (Continue,
           set_Error (offered (recvError (ErrorString ("type not allowed: " ++ k2)))
                              (Error wc')) wc',
           n2)
    end.
Proof.
  intros Hs He Hread Hname Hk err wc'.
  assert (Hs' : not_shut_down wc') by done.
  assert (He' : Chan.closed (Error wc') = false)
    by (simpl; by rewrite offered_closed).
  split; [|split; [done|]].
  - apply recvIter_name_unregistered; try done.
    rewrite (DecodeString_doc _ _ _ _ Hread). by rewrite Hname.
  - intros d2 n2 Hread2.
    assert (Hd2 : DecodeString wc' n1
                  = (match UnmarshalString d2 with
                     | inl e => DecodeErr e
                     | inr s => Decoded s
                     end, n2))
      by (by apply DecodeString_doc).
    split; [done|].
    destruct (UnmarshalString d2) as [e|k2].
    + intros Hc. by apply recvIter_name_error.
    + intros Hk2. by apply recvIter_name_unregistered.
Qed.

(** C6.  Neither goroutine is stopped by a transport or codec error.
    Send goroutine: an iteration returns exactly when the outbound
    queue is closed and drained; when the value it dequeues is in the
    registry and writing the name or the payload fails with any error
    [e], it offers [&sendError{e}] to the error queue and ends in
    [Continue].  Receive goroutine: when decoding the name or the
    payload fails with an error outside the stream-closed class
    ([net.ErrClosed], [io.EOF]), it offers [&recvError{e}] and ends in
    [Continue]; an iteration returns only on the shutdown signal or on
    a decode error of the stream-closed class. *)
Theorem loops_survive_transport_and_codec_errors :
  (forall rng wc n,
      (sendIter rng wc n).1.1 = Return <->
      Chan.buf (Send wc) = [] /\ Chan.closed (Send wc) = true) /\
  (forall rng wc n data rest k e n1,
      Chan.closed (Error wc) = false ->
      Chan.buf (Send wc) = data :: rest ->
      getAllowedTypeName wc rng data = (k, true) ->
      (Encode (dequeued wc rest) (VString k) n = (Some e, n1) \/
       exists n0, Encode (dequeued wc rest) (VString k) n = (None, n0) /\
                  Encode (dequeued wc rest) data n0 = (Some e, n1)) ->
      sendIter rng wc n
      = (Continue,
         set_Error (offered (sendError e) (Error wc)) (dequeued wc rest), n1)) /\
  (forall wc n e n1,
      not_shut_down wc -> Chan.closed (Error wc) = false ->
      DecodeString wc n = (DecodeErr e, n1) ->
      closed_class e = false ->
      recvIter wc n
      = (Continue, set_Error (offered (recvError e) (Error wc)) wc, n1)) /\
  (forall wc n k t n1 e n2,
      not_shut_down wc -> Chan.closed (Error wc) = false ->
      DecodeString wc n = (Decoded k, n1) ->
      allowedTypes wc !! k = Some t ->
      DecodeInto wc (New t) n1 = Some (DecodeErr e, n2) ->
      closed_class e = false ->
      recvIter wc n
      = (Continue, set_Error (offered (recvError e) (Error wc)) wc, n2)) /\
  (forall wc n,
      (recvIter wc n).1.1 = Return ->
      ~ not_shut_down wc \/
      (exists e n1, DecodeString wc n = (DecodeErr e, n1) /\ closed_class e = true) \/
      (exists k t n1 e n2,
          DecodeString wc n = (Decoded k, n1) /\
          allowedTypes wc !! k = Some t /\
          DecodeInto wc (New t) n1 = Some (DecodeErr e, n2) /\
          closed_class e = true)).
Proof.
  split; [apply sendIter_Return|].
  split.
  { intros rng wc n data rest k e n1 He Hbuf Hk Henc.
    rewrite (sendIter_found rng wc n data rest k Hbuf Hk).
    destruct Henc as [H1|(n0 & H1 & H2)].
    - rewrite H1. by rewrite tryPushError_open.
    - rewrite H1, H2. by rewrite tryPushError_open. }
  split; [intros; by apply recvIter_name_error|].
  split; [intros; by eapply recvIter_payload_error|].
  intros wc n Hret.
  destruct (Chan.recv (closeRecvChan wc)) as [x c| |] eqn:Hs;
    [left; unfold not_shut_down; congruence
    |left; unfold not_shut_down; congruence|].
  right. revert Hret. unfold recvIter, recvBody. rewrite Hs.
  destruct (DecodeString wc n) as [[k|e|] n1] eqn:Hd; [| |done].
  - unfold createTypeInterfaceReflectPointer.
    destruct (allowedTypes wc !! k) as [t|] eqn:Hk.
    + destruct (DecodeInto wc (New t) n1) as [[[v|e|] n2]|] eqn:Hp.
      * destruct (Chan.send (Recv wc) v); simpl; try done.
        unfold recvDeferred. destruct (Chan.close _); simpl; done.
      * unfold recvDecodeFailed. fold (closed_class e).
        destruct (closed_class e) eqn:Hc.
        -- intros _. right. by exists k, t, n1, e, n2.
        -- unfold tryPushError. destruct (Chan.send _ _); simpl; try done.
           unfold recvDeferred. destruct (Chan.close _); simpl; done.
      * done.
      * simpl. unfold recvDeferred. destruct (Chan.close _); simpl; done.
    + unfold tryPushError. destruct (Chan.send _ _); simpl; try done.
      unfold recvDeferred. destruct (Chan.close _); simpl; done.
  - unfold recvDecodeFailed. fold (closed_class e).
    destruct (closed_class e) eqn:Hc.
    + intros _. left. by exists e, n1.
    + unfold tryPushError. destruct (Chan.send _ _); simpl; try done.
      unfold recvDeferred. destruct (Chan.close _); simpl; done.
Qed.

End ErrorHandling.

(* ===================================================================== *)
(** ** Construction, the error queue and shutdown *)
(* ===================================================================== *)

Section Lifecycle.

Context {rt : GoRuntime} {codec : Codec}
        {conn net : Type} {netconn : NetConn doc conn net}.
Implicit Types (wc : WebChan (conn := conn)) (n : net).


(** C8, as the code has it.  Construction does not check names, and
    whether it fails does not depend on them: for a given socket and
    buffer length, [NewWebChan] returns a channel for one list of
    prototypes exactly when it does for any other, with or without
    duplicate names, and likewise [NewNamedWebChan] for any two maps.
    [NewNamedWebChan] takes a map, which cannot hold a name twice, and
    registers the runtime type of each prototype under its name.
    [NewWebChan] derives each name from the prototype with [%T]; when
    several prototypes yield the same name the last one in the list is
    the one registered. *)
Theorem construction_keeps_last_duplicate
    (s : conn) (bufLength : Z) (l : list value) (m : gmap string value) :
  (forall l' : list value,
      (exists wc, NewWebChan s bufLength l = inr wc) <->
      (exists wc', NewWebChan s bufLength l' = inr wc')) /\
  (forall m' : gmap string value,
      (exists wc, NewNamedWebChan s bufLength m = inr wc) <->
      (exists wc', NewNamedWebChan s bufLength m' = inr wc')) /\
  (forall wc, NewWebChan s bufLength l = inr wc ->
              forall k, allowedTypes wc !! k
                        = TypeOf <$> last (filter (fun v => fmtT v = k) l)) /\
  (forall wc, NewNamedWebChan s bufLength m = inr wc ->
              forall k, allowedTypes wc !! k = TypeOf <$> (m !! k)).
Proof.
  split; [|split; [|split]].
  - intros l'. unfold NewWebChan. by rewrite !NewNamedWebChan_returns.
  - intros m'. by rewrite !NewNamedWebChan_returns.
  - intros wc. unfold NewWebChan. intros [_ ->]%NewNamedWebChan_inr k. simpl.
    by rewrite lookup_fmap, allowedTypesMap_lookup.
  - intros wc [_ ->]%NewNamedWebChan_inr k. simpl. by rewrite lookup_fmap.
Qed.

Lemma Close_first wc n :
  not_shut_down wc -> Chan.closed (Send wc) = false ->
  Close wc n = (Return, closed_down wc, (conn_Close (soc wc) n).2).
Proof.
  intros Hs Hopen. unfold Close. rewrite Hs.
  apply recv_would_block in Hs as [Hb Hc].
  unfold Chan.close. rewrite Hc. simpl. rewrite Hopen.
  by destruct (conn_Close (soc wc) n).
Qed.

Lemma Close_again wc n :
  Chan.recv (closeRecvChan wc) = Chan.RecvClosed ->
  Close wc n = (Return, wc, n).
Proof. intros H. unfold Close. by rewrite H. Qed.

Lemma closed_down_signalled wc :
  not_shut_down wc -> Chan.recv (closeRecvChan (closed_down wc)) = Chan.RecvClosed.
Proof. intros [Hb Hc]%recv_would_block. by apply recv_closed. Qed.

(** The first [Close], then any number of further ones. *)
Lemma Close_idempotent wc n :
  not_shut_down wc -> Chan.closed (Send wc) = false ->
  let wc1 := closed_down wc in
  let n1 := (conn_Close (soc wc) n).2 in
  Close wc n = (Return, wc1, n1) /\ Close wc1 n1 = (Return, wc1, n1).
Proof.
  intros Hs Hopen wc1 n1. split; [by apply Close_first|].
  apply Close_again. by apply closed_down_signalled.
Qed.

(** C10.  After the first [Close] the outbound queue is closed: a
    send on [wc.Send] panics with "send on closed channel", it does not
    block, fail with an error or get dropped, and this stays so after
    further calls of [Close].  The first [Close] itself returns
    normally when the caller had not closed [wc.Send] by hand. *)
Theorem send_after_Close_panics wc n st wc1 n1 :
  not_shut_down wc ->
  Close wc n = (st, wc1, n1) ->
  (Chan.closed (Send wc) = false -> st = Return) /\
  Chan.closed (Send wc1) = true /\
  (forall v, push_Send v wc1 = (Panic send_on_closed, wc1)) /\
  (forall st2 wc2 n2, Close wc1 n1 = (st2, wc2, n2) ->
     forall v, push_Send v wc2 = (Panic send_on_closed, wc2)).
Proof.
  intros Hs HClose.
  assert (Hclosed : Chan.closed (Send wc1) = true /\
                    Chan.recv (closeRecvChan wc1) = Chan.RecvClosed).
  { revert HClose. unfold Close. rewrite Hs.
    apply recv_would_block in Hs as [Hb Hc].
    unfold Chan.close. rewrite Hc. simpl.
    destruct (Chan.closed (Send wc)) eqn:Hopen.
    - intros [= <- <- <-]. split; [done|]. by apply recv_closed.
    - destruct (conn_Close (soc wc) n). intros [= <- <- <-].
      split; [done|]. by apply recv_closed. }
  destruct Hclosed as [Hsend Hsig].
  split; [|split; [done|split]].
  - intros Hopen. rewrite Close_first in HClose by done. congruence.
  - intros v. unfold push_Send. by rewrite send_closed.
  - intros st2 wc2 n2. rewrite Close_again by done. intros [= <- <- <-] v.
    unfold push_Send. by rewrite send_closed.
Qed.

End Lifecycle.

(* ===================================================================== *)
(** ** Two endpoints on the in-memory stream *)
(* ===================================================================== *)

Section PipeFacts.

Context {D : Type}.
Implicit Types (p : Pipe.state D) (s : Pipe.side).

Lemma other_other s : Pipe.other (Pipe.other s) = s.
Proof. by destruct s. Qed.

Lemma is_closed_set_inbox s s' l p :
  Pipe.is_closed s (Pipe.set_inbox s' l p) = Pipe.is_closed s p.
Proof. by destruct s, s'. Qed.

Lemma inbox_set_inbox s l p : Pipe.inbox s (Pipe.set_inbox s l p) = l.
Proof. by destruct s. Qed.

Lemma inbox_set_inbox_other s l p :
  Pipe.inbox s (Pipe.set_inbox (Pipe.other s) l p) = Pipe.inbox s p.
Proof. by destruct s. Qed.

Lemma set_inbox_set_inbox s l l' p :
  Pipe.set_inbox s l (Pipe.set_inbox s l' p) = Pipe.set_inbox s l p.
Proof. by destruct s. Qed.

Lemma set_inbox_same s p : Pipe.set_inbox s (Pipe.inbox s p) p = p.
Proof. by destruct s, p. Qed.

Lemma is_closed_mark_closed s p : Pipe.is_closed s (Pipe.mark_closed s p) = true.
Proof. by destruct s. Qed.

Lemma closeCalls_mark_closed s p :
  Pipe.closeCalls s (Pipe.mark_closed s p) = S (Pipe.closeCalls s p).
Proof. by destruct s. Qed.

Lemma read_doc s p d rest :
  Pipe.is_closed s p = false -> Pipe.inbox s p = d :: rest ->
  Pipe.read s p = (ReadDoc d, Pipe.set_inbox s rest p).
Proof. intros Hc Hi. unfold Pipe.read. by rewrite Hc, Hi. Qed.

Lemma read_would_block s p :
  Pipe.is_closed s p = false -> Pipe.inbox s p = [] ->
  Pipe.is_closed (Pipe.other s) p = false ->
  Pipe.read s p = (ReadWouldBlock, p).
Proof. intros Hc Hi Ho. unfold Pipe.read. by rewrite Hc, Hi, Ho. Qed.

Lemma read_eof s p :
  Pipe.is_closed s p = false -> Pipe.inbox s p = [] ->
  Pipe.is_closed (Pipe.other s) p = true ->
  Pipe.read s p = (ReadErr EOF, p).
Proof. intros Hc Hi Ho. unfold Pipe.read. by rewrite Hc, Hi, Ho. Qed.

Lemma read_closed s p :
  Pipe.is_closed s p = true ->
  Pipe.read s p = (ReadErr (Wrapped "read pipe" ErrClosed), p).
Proof. intros Hc. unfold Pipe.read. by rewrite Hc. Qed.

Lemma write_open s d p :
  Pipe.is_closed s p = false -> Pipe.is_closed (Pipe.other s) p = false ->
  Pipe.write s d p
  = (None, Pipe.set_inbox (Pipe.other s) (Pipe.inbox (Pipe.other s) p ++ [d]) p).
Proof. intros Hc Ho. unfold Pipe.write. by rewrite Hc, Ho. Qed.

End PipeFacts.

Section PipeSend.

Context {codec : Codec}.
Implicit Types (wc : WebChan (conn := Pipe.side)) (p : Pipe.state doc).

Lemma Encode_pipe wc v d p :
  Marshal v = inr d ->
  Pipe.is_closed (soc wc) p = false ->
  Pipe.is_closed (Pipe.other (soc wc)) p = false ->
  Encode wc v p
  = (None, Pipe.set_inbox (Pipe.other (soc wc))
                          (Pipe.inbox (Pipe.other (soc wc)) p ++ [d]) p).
Proof.
  intros Hm Hc Ho. unfold Encode. rewrite Hm. simpl. by apply write_open.
Qed.

(** One iteration on a registered value that the codec accepts, both
    ends of the stream being open: the frame of the value is appended
    to what is in flight towards the peer. *)
Lemma sendIter_pipe rng wc p data rest :
  range_of wc rng ->
  Chan.buf (Send wc) = data :: rest ->
  registered wc (TypeOf data) ->
  (forall k, allowedTypes wc !! k = Some (TypeOf data) ->
             exists dk, Marshal (VString k) = inr dk) ->
  (exists d, Marshal data = inr d) ->
  Pipe.is_closed (soc wc) p = false ->
  Pipe.is_closed (Pipe.other (soc wc)) p = false ->
  exists fr,
    encodes_to wc data fr /\
    sendIter rng wc p
    = (Continue, dequeued wc rest,
       Pipe.set_inbox (Pipe.other (soc wc))
                      (Pipe.inbox (Pipe.other (soc wc)) p ++ fr) p).
Proof.
  intros Hrng Hbuf Hreg Hnames [d Hd] Hc Ho.
  destruct (getAllowedTypeName_registered wc rng data Hrng Hreg) as (k & Hk & Hlk).
  destruct (Hnames k Hlk) as [dk Hdk].
  exists [dk; d]. split.
  { exists k. split; [done|]. by exists dk, d. }
  rewrite (sendIter_found rng wc p data rest k Hbuf Hk).
  rewrite (Encode_pipe _ _ dk) by done.
  rewrite (Encode_pipe _ _ d);
    [|done|by rewrite is_closed_set_inbox|by rewrite is_closed_set_inbox].
  simpl. rewrite inbox_set_inbox, set_inbox_set_inbox, <- app_assoc. done.
Qed.

(** The send goroutine on a queue of registered values that the codec
    accepts: it writes their frames one after the other, in queue
    order, then parks on the empty queue, or returns if the queue has
    been closed. *)
Lemma sendRoutine_pipe (vs : list value) :
  forall rng i wc p,
    (forall j, range_of wc (rng j)) ->
    Chan.buf (Send wc) = vs ->
    Forall (sendable wc) vs ->
    Pipe.is_closed (soc wc) p = false ->
    Pipe.is_closed (Pipe.other (soc wc)) p = false ->
    exists frames,
      Forall2 (encodes_to wc) vs frames /\
      loop (S (length vs)) (fun i => sendIter (rng i)) i wc p
      = (if Chan.closed (Send wc) then Return else Park,
         dequeued wc [],
         Pipe.set_inbox (Pipe.other (soc wc))
                        (Pipe.inbox (Pipe.other (soc wc)) p ++ concat frames) p).
Proof.
  induction vs as [|v vs IH]; intros rng i wc p Hrng Hbuf Hvs Hc Ho.
  - exists []. split; [constructor|]. simpl.
    rewrite app_nil_r, set_inbox_same.
    assert (Hdq : dequeued wc [] = wc).
    { unfold dequeued. rewrite <- Hbuf, chan_eta. by destruct wc. }
    rewrite Hdq.
    destruct (Chan.closed (Send wc)) eqn:Hcl.
    + by rewrite sendIter_empty_closed.
    + by rewrite sendIter_empty_open.
  - apply Forall_cons in Hvs as [(Hreg & Hm & Hnames) Hvs].
    destruct (sendIter_pipe (rng i) wc p v vs (Hrng i) Hbuf Hreg) as (fr & Hfr & Hit);
      [done|done|done|done|].
    destruct (IH rng (S i) (dequeued wc vs)
                 (Pipe.set_inbox (Pipe.other (soc wc))
                    (Pipe.inbox (Pipe.other (soc wc)) p ++ fr) p))
      as (frames & Hframes & Hloop); try done.
    { simpl. by rewrite is_closed_set_inbox. }
    { simpl. by rewrite is_closed_set_inbox. }
    exists (fr :: frames). split; [by constructor|].
    change (loop (S (length (v :: vs))) (fun i => sendIter (rng i)) i wc p)
      with (match sendIter (rng i) wc p with
            | (Continue, wc', n') =>
                loop (S (length vs)) (fun i => sendIter (rng i)) (S i) wc' n'
            | r => r
            end).
    rewrite Hit, Hloop. simpl.
    by rewrite inbox_set_inbox, set_inbox_set_inbox, <- app_assoc.
Qed.

End PipeSend.

Section PipeRecv.

Context {codec : Codec}.
Implicit Types (wc : WebChan (conn := Pipe.side)) (p : Pipe.state doc).

(** One iteration on a well-formed frame, with room in the inbound
    queue: the frame is consumed and its value delivered. *)
Lemma recvIter_pipe_frame wc p fr v rest :
  not_shut_down wc ->
  Chan.closed (Recv wc) = false ->
  (length (Chan.buf (Recv wc)) < Chan.cap (Recv wc))%nat ->
  Pipe.is_closed (soc wc) p = false ->
  Pipe.inbox (soc wc) p = (fr ++ rest)%list ->
  decodes_to wc fr v ->
  recvIter wc p = (Continue, delivered [v] wc, Pipe.set_inbox (soc wc) rest p).
Proof.
  intros Hs Hr Hroom Hc Hin (dk & d & k & t & -> & Hdk & Hk & Hd).
  simpl in Hin.
  rewrite (recvIter_delivered wc p k t (Pipe.set_inbox (soc wc) (d :: rest) p)
             v (Pipe.set_inbox (soc wc) rest p)); try done.
  - unfold delivered. by rewrite Hr.
  - rewrite (DecodeString_doc wc p dk (Pipe.set_inbox (soc wc) (d :: rest) p)).
    + by rewrite Hdk.
    + simpl. by apply read_doc.
  - rewrite (DecodeInto_doc wc t _ d (Pipe.set_inbox (soc wc) rest p)).
    + by rewrite Hd.
    + simpl. rewrite (read_doc _ _ d rest).
      * by rewrite set_inbox_set_inbox.
      * by rewrite is_closed_set_inbox.
      * by rewrite inbox_set_inbox.
Qed.

Lemma delivered_nil wc : delivered [] wc = wc.
Proof. unfold delivered. rewrite app_nil_r, chan_eta. by destruct wc. Qed.

Lemma delivered_app vs ws wc :
  delivered ws (delivered vs wc) = delivered (vs ++ ws) wc.
Proof. unfold delivered. simpl. by rewrite app_assoc. Qed.

(** The receive goroutine on a stream holding well-formed frames, with
    room for their values: it delivers the values in the order of the
    frames and then parks on the empty stream. *)
Lemma recvRoutine_pipe (frames : list (list doc)) :
  forall (vs : list value) i wc p,
    not_shut_down wc ->
    Chan.closed (Recv wc) = false ->
    (length (Chan.buf (Recv wc)) + length vs <= Chan.cap (Recv wc))%nat ->
    Pipe.is_closed (soc wc) p = false ->
    Pipe.is_closed (Pipe.other (soc wc)) p = false ->
    Pipe.inbox (soc wc) p = concat frames ->
    Forall2 (decodes_to wc) frames vs ->
    loop (S (length vs)) (fun _ => recvIter) i wc p
    = (Park, delivered vs wc, Pipe.set_inbox (soc wc) [] p).
Proof.
  induction frames as [|fr frames IH];
    intros vs i wc p Hs Hr Hroom Hc Ho Hin Hfs.
  - apply Forall2_nil_inv_l in Hfs as ->. simpl in *.
    rewrite delivered_nil, <- Hin, set_inbox_same.
    rewrite (recvIter_name_would_block wc p p); [done|done|].
    unfold DecodeString. simpl. by rewrite read_would_block.
  - apply Forall2_cons_inv_l in Hfs as (v & vs' & Hfr & Hfs & ->).
    simpl in Hroom, Hin.
    change (loop (S (length (v :: vs'))) (fun _ => recvIter) i wc p)
      with (match recvIter wc p with
            | (Continue, wc', n') =>
                loop (S (length vs')) (fun _ => recvIter) (S i) wc' n'
            | r => r
            end).
    rewrite (recvIter_pipe_frame wc p fr v (concat frames)); try done; [|lia].
    rewrite IH; try done.
    + by rewrite delivered_app, set_inbox_set_inbox.
    + simpl. rewrite length_app. simpl. lia.
    + simpl. by rewrite is_closed_set_inbox.
    + simpl. by rewrite is_closed_set_inbox.
    + simpl. by rewrite inbox_set_inbox.
Qed.

End PipeRecv.

Section PipeEndToEnd.

Context {rt : GoRuntime} {codec : Codec}.
Implicit Types (wc : WebChan (conn := Pipe.side)) (p : Pipe.state doc).

Lemma push_Send_Continue v wc wc' :
  push_Send v wc = (Continue, wc') ->
  wc' = set_Send (Chan.Mk (Chan.buf (Send wc) ++ [v]) (Chan.cap (Send wc)) false) wc.
Proof.
  unfold push_Send, Chan.send.
  destruct (Chan.closed (Send wc)); [done|].
  destruct (_ <? _)%nat; [|done]. by intros [= <-].
Qed.

(** Sends that complete append to the outbound queue and touch nothing
    else. *)
Lemma push_all_Some vs : forall wc wc',
  push_all vs wc = Some wc' ->
  Chan.buf (Send wc') = (Chan.buf (Send wc) ++ vs)%list /\
  Chan.closed (Send wc') = Chan.closed (Send wc) /\
  allowedTypes wc' = allowedTypes wc /\ soc wc' = soc wc.
Proof.
  induction vs as [|v vs IH]; intros wc wc'; simpl.
  - intros [= <-]. by rewrite app_nil_r.
  - destruct (push_Send v wc) as [[| | |pv] wc1] eqn:Hp; try done.
    assert (Hopen : Chan.closed (Send wc) = false).
    { revert Hp. unfold push_Send, Chan.send.
      destruct (Chan.closed (Send wc)); [done|]. by destruct (_ <? _)%nat. }
    apply push_Send_Continue in Hp as ->. intros H.
    apply IH in H as (Hb & Hc & Ha & Hs). simpl in *.
    rewrite Hb, <- app_assoc, Hc, Hopen. done.
Qed.

Lemma sendable_ext wc wc' v :
  allowedTypes wc' = allowedTypes wc -> sendable wc v -> sendable wc' v.
Proof. unfold sendable, registered. by intros ->. Qed.

Lemma encodes_to_ext wc wc' v fr :
  allowedTypes wc' = allowedTypes wc -> encodes_to wc' v fr -> encodes_to wc v fr.
Proof. unfold encodes_to. by intros ->. Qed.

(** C2.  Order is kept in each direction.
    Outbound: when the caller's sends of [vs] have completed on an
    endpoint whose outbound queue held [q], and every queued value can
    be put on the wire, the send goroutine appends to the stream the
    frames of [q ++ vs], one frame per value, in that order, and then
    parks on the empty queue.
    Inbound: when the stream holds the frames [frames], which decode to
    the values [vs], and the inbound queue has room, the receive
    goroutine appends exactly [vs] to the inbound queue, in the order
    of the frames, and then parks on the empty stream. *)
Theorem fifo_per_direction :
  (forall (vs : list value) rng wc0 wc p,
      (forall j, range_of wc0 (rng j)) ->
      push_all vs wc0 = Some wc ->
      Chan.closed (Send wc0) = false ->
      Forall (sendable wc0) (Chan.buf (Send wc0) ++ vs) ->
      Pipe.is_closed (soc wc0) p = false ->
      Pipe.is_closed (Pipe.other (soc wc0)) p = false ->
      exists frames wc' p',
        sendRoutine (S (length (Chan.buf (Send wc0) ++ vs))) rng wc p
        = (Park, wc', p') /\
        Forall2 (encodes_to wc0) (Chan.buf (Send wc0) ++ vs) frames /\
        Chan.buf (Send wc') = [] /\
        Pipe.inbox (Pipe.other (soc wc0)) p'
        = (Pipe.inbox (Pipe.other (soc wc0)) p ++ concat frames)%list /\
        Pipe.inbox (soc wc0) p' = Pipe.inbox (soc wc0) p) /\
  (forall (frames : list (list doc)) (vs : list value) wc p,
      not_shut_down wc ->
      Chan.closed (Recv wc) = false ->
      (length (Chan.buf (Recv wc)) + length vs <= Chan.cap (Recv wc))%nat ->
      Pipe.is_closed (soc wc) p = false ->
      Pipe.is_closed (Pipe.other (soc wc)) p = false ->
      Pipe.inbox (soc wc) p = concat frames ->
      Forall2 (decodes_to wc) frames vs ->
      exists wc' p',
        recvRoutine (S (length vs)) wc p = (Park, wc', p') /\
        Chan.buf (Recv wc') = (Chan.buf (Recv wc) ++ vs)%list /\
        Pipe.inbox (soc wc) p' = []).
Proof.
  split.
  - intros vs rng wc0 wc p Hrng Hpush Hopen Hvs Hc Ho.
    apply push_all_Some in Hpush as (Hb & Hcl & Ha & Hs).
    destruct (sendRoutine_pipe (Chan.buf (Send wc0) ++ vs) rng 0%nat wc p)
      as (frames & Hframes & Hloop).
    + intros j. unfold range_of. rewrite Ha. apply Hrng.
    + done.
    + eapply Forall_impl; [exact Hvs|]. intros v. by apply sendable_ext.
    + by rewrite Hs.
    + by rewrite Hs.
    + exists frames. eexists _, _. split.
      * unfold sendRoutine. rewrite Hloop, Hcl, Hopen. done.
      * split.
        { eapply Forall2_impl; [exact Hframes|]. intros v fr.
          by apply encodes_to_ext. }
        rewrite Hs. split; [done|]. split.
        -- by rewrite inbox_set_inbox.
        -- by rewrite inbox_set_inbox_other.
  - intros frames vs wc p Hs Hr Hroom Hc Ho Hin Hfs.
    eexists _, _. split.
    + unfold recvRoutine. by apply (recvRoutine_pipe frames).
    + split; [|by rewrite inbox_set_inbox].
      simpl. done.
Qed.

(** C1.  Round trip.  Two endpoints are built on the two ends of a
    fresh stream from the same name-to-prototype map [m].  [v] is a
    value whose type is registered in [m] and which, like the names of
    its type, the codec carries unchanged.  The caller sends [v] on the
    first endpoint; its send goroutine writes one frame, the name then
    the payload; the receive goroutine of the peer consumes that frame
    and leaves [v] itself, unwrapped, as the only element of its
    inbound queue. *)
Theorem round_trip
    (m : gmap string value) (bufLength : Z) (s : Pipe.side) (v : value)
    (a b : WebChan (conn := Pipe.side)) (rng : nat -> list string) :
  NewNamedWebChan s bufLength m = inr a ->
  NewNamedWebChan (Pipe.other s) bufLength m = inr b ->
  (0 < bufLength)%Z ->
  (exists k proto, m !! k = Some proto /\ TypeOf proto = TypeOf v) ->
  value_survives v ->
  (forall k proto, m !! k = Some proto -> TypeOf proto = TypeOf v ->
                   name_survives k) ->
  (forall i, range_of a (rng i)) ->
  exists a1 a2 p1 b2 p2 k fr,
    push_Send v a = (Continue, a1) /\
    sendRoutine 2 rng a1 Pipe.fresh = (Park, a2, p1) /\
    allowedTypes a !! k = Some (TypeOf v) /\
    is_frame k v fr /\
    Pipe.inbox (Pipe.other s) p1 = fr /\
    recvRoutine 2 b p1 = (Park, b2, p2) /\
    Chan.buf (Recv b2) = [v] /\
    Pipe.inbox (Pipe.other s) p2 = [].
Proof.
  intros [_ ->]%NewNamedWebChan_inr [_ ->]%NewNamedWebChan_inr
         Hlen (k0 & proto0 & Hk0 & Ht0) Hv Hnames Hrng.
  set (a := mkWebChan _ _ _ _ s _) in *.
  set (b := mkWebChan _ _ _ _ (Pipe.other s) _).
  (* the caller's send *)
  assert (Hpush : push_Send v a
                  = (Continue,
                     set_Send (Chan.Mk [v] (Z.to_nat bufLength) false) a)).
  { unfold push_Send. rewrite send_room; [done|done|simpl; lia]. }
  set (a1 := set_Send _ a) in Hpush.
  (* the send goroutine *)
  assert (Hsendable : sendable a1 v).
  { split; [|split].
    - exists k0. simpl. by rewrite lookup_fmap, Hk0, <- Ht0.
    - destruct Hv as (d & Hd & _). by exists d.
    - intros k. simpl. rewrite lookup_fmap.
      destruct (m !! k) as [proto|] eqn:Hk; [|done]. simpl. intros [= Ht].
      destruct (Hnames k proto Hk Ht) as (dk & Hdk & _). by exists dk. }
  destruct (sendRoutine_pipe [v] rng 0%nat a1 Pipe.fresh)
    as (frames & Hframes & Hloop); try done.
  { by constructor. }
  { by destruct s. }
  { by destruct s. }
  apply Forall2_cons_inv_l in Hframes as (fr & frames' & Hfr & Hnil & ->).
  apply Forall2_nil_inv_l in Hnil as ->.
  destruct Hfr as (k & Hk & Hframe).
  simpl in Hloop. rewrite app_nil_r in Hloop.
  set (p1 := Pipe.set_inbox (Pipe.other s) _ Pipe.fresh) in Hloop.
  assert (Hin1 : Pipe.inbox (Pipe.other s) p1 = fr).
  { unfold p1. rewrite inbox_set_inbox. by destruct s. }
  (* the receive goroutine of the peer *)
  assert (Hdec : decodes_to b fr v).
  { destruct Hframe as (dk & d & -> & Hdk & Hd).
    exists dk, d, k, (TypeOf v). split; [done|].
    simpl in Hk. rewrite lookup_fmap in Hk.
    destruct (m !! k) as [proto|] eqn:Hmk; [|done]. injection Hk as Ht.
    destruct (Hnames k proto Hmk Ht) as (dk' & Hdk' & Hback).
    destruct Hv as (d' & Hd' & Hvback).
    assert (dk' = dk) as -> by congruence.
    assert (d' = d) as -> by congruence.
    split; [done|]. split; [|done].
    simpl. by rewrite lookup_fmap, Hmk, <- Ht. }
  pose proof (recvRoutine_pipe [fr] [v] 0%nat b p1) as Hrecv.
  exists a1, (dequeued a1 []), p1, (delivered [v] b),
         (Pipe.set_inbox (Pipe.other s) [] p1), k, fr.
  split; [done|]. split; [done|]. split; [done|]. split; [done|].
  split; [done|]. split.
  - unfold recvRoutine. apply Hrecv; try done.
    + simpl. lia.
    + unfold p1. rewrite is_closed_set_inbox. by destruct s.
    + unfold p1. rewrite is_closed_set_inbox. by destruct s.
    + simpl. by rewrite app_nil_r.
    + by repeat constructor.
  - split; [done|]. by rewrite inbox_set_inbox.
Qed.

End PipeEndToEnd.

Section PipeShutdown.

Context {codec : Codec}.
Implicit Types (wc : WebChan (conn := Pipe.side)) (p : Pipe.state doc).

(** One iteration of the receive goroutine once the peer has closed its
    end: it returns and closes the inbound queue, or it is held back by
    a full inbound queue, or it goes round again having consumed at
    least one document.  It does not panic and it does not wait for the
    stream. *)
Lemma recvIter_peer_closed wc p :
  Chan.closed (Recv wc) = false ->
  Chan.closed (Error wc) = false ->
  Pipe.is_closed (Pipe.other (soc wc)) p = true ->
  exists st wc' p',
    recvIter wc p = (st, wc', p') /\
    match st with
    | Return => Chan.closed (Recv wc') = true
    | Park =>
        Chan.closed (Recv wc') = false /\
        (Chan.cap (Recv wc') <= length (Chan.buf (Recv wc')))%nat /\
        (Chan.cap (Recv wc)
         < length (Chan.buf (Recv wc)) + length (Pipe.inbox (soc wc) p))%nat
    | Continue =>
        soc wc' = soc wc /\
        Chan.closed (Recv wc') = false /\
        Chan.closed (Error wc') = false /\
        Chan.cap (Recv wc') = Chan.cap (Recv wc) /\
        Pipe.is_closed (Pipe.other (soc wc)) p' = true /\
        (length (Pipe.inbox (soc wc) p') < length (Pipe.inbox (soc wc) p))%nat /\
        (length (Chan.buf (Recv wc')) + length (Pipe.inbox (soc wc) p')
         <= length (Chan.buf (Recv wc)) + length (Pipe.inbox (soc wc) p))%nat
    | Panic _ => False
    end.
Proof.
  intros Hr He Hpeer.
  destruct (Chan.recv (closeRecvChan wc)) as [x c| |] eqn:Hs.
  1,2: destruct (recvIter_shut_down wc p) as (wc' & Hit & Hcl);
       [unfold not_shut_down; congruence|done|];
       by exists Return, wc', p.
  destruct (Pipe.is_closed (soc wc) p) eqn:Hown.
  { exists Return, (Recv_closed_by_return wc), p. split; [|done].
    apply (recvIter_name_closed wc p (Wrapped "read pipe" ErrClosed)); try done.
    unfold DecodeString. simpl. by rewrite read_closed. }
  destruct (Pipe.inbox (soc wc) p) as [|d rest] eqn:Hin.
  { exists Return, (Recv_closed_by_return wc), p. split; [|done].
    apply (recvIter_name_closed wc p EOF); try done.
    unfold DecodeString. simpl. by rewrite read_eof. }
  set (p1 := Pipe.set_inbox (soc wc) rest p).
  assert (Hname : DecodeString wc p
                  = (match UnmarshalString d with
                     | inl e => DecodeErr e
                     | inr k => Decoded k
                     end, p1)).
  { apply DecodeString_doc. simpl. by apply read_doc. }
  assert (Hpeer1 : Pipe.is_closed (Pipe.other (soc wc)) p1 = true)
    by (unfold p1; by rewrite is_closed_set_inbox).
  assert (Hown1 : Pipe.is_closed (soc wc) p1 = false)
    by (unfold p1; by rewrite is_closed_set_inbox).
  assert (Hin1 : Pipe.inbox (soc wc) p1 = rest)
    by (unfold p1; by rewrite inbox_set_inbox).
  destruct (UnmarshalString d) as [e|k].
  { destruct (closed_class e) eqn:Hc.
    - exists Return, (Recv_closed_by_return wc), p1. split; [|done].
      by apply (recvIter_name_closed wc p e).
    - eexists Continue, _, p1. split; [by apply (recvIter_name_error wc p e)|].
      simpl. rewrite offered_closed, Hin1. simpl. repeat split; try done; lia. }
  destruct (allowedTypes wc !! k) as [t|] eqn:Hk.
  2:{ eexists Continue, _, p1.
      split; [by apply (recvIter_name_unregistered wc p k)|].
      simpl. rewrite offered_closed, Hin1. simpl. repeat split; try done; lia. }
  destruct rest as [|d2 rest2].
  { exists Return, (Recv_closed_by_return wc), p1. split; [|done].
    apply (recvIter_payload_closed wc p k t p1 EOF p1); try done.
    unfold DecodeInto. simpl. by rewrite read_eof. }
  set (p2 := Pipe.set_inbox (soc wc) rest2 p1).
  assert (Hpay : DecodeInto wc (New t) p1
                 = Some (match Unmarshal d2 t with
                         | inl e => DecodeErr e
                         | inr v => Decoded v
                         end, p2)).
  { apply DecodeInto_doc. simpl. by apply read_doc. }
  assert (Hpeer2 : Pipe.is_closed (Pipe.other (soc wc)) p2 = true)
    by (unfold p2; by rewrite is_closed_set_inbox).
  assert (Hin2 : Pipe.inbox (soc wc) p2 = rest2)
    by (unfold p2; by rewrite inbox_set_inbox).
  destruct (Unmarshal d2 t) as [e|v].
  { destruct (closed_class e) eqn:Hc.
    - exists Return, (Recv_closed_by_return wc), p2. split; [|done].
      by apply (recvIter_payload_closed wc p k t p1 e p2).
    - eexists Continue, _, p2.
      split; [by apply (recvIter_payload_error wc p k t p1 e p2)|].
      simpl. rewrite offered_closed, Hin2. simpl. repeat split; try done; lia. }
  destruct (Nat.lt_ge_cases (length (Chan.buf (Recv wc))) (Chan.cap (Recv wc)))
    as [Hroom|Hfull].
  - eexists Continue, _, p2.
    split; [by apply (recvIter_delivered wc p k t p1 v p2)|].
    simpl. rewrite Hin2, length_app. simpl. repeat split; try done; lia.
  - exists Park, wc, p2.
    split; [by apply (recvIter_backpressure wc p k t p1 v p2)|].
    simpl. repeat split; try done; lia.
Qed.

(** Once the peer has closed its end, the receive goroutine comes to
    rest after at most one iteration per document still in flight, plus
    one: it has returned and closed the inbound queue, or it is held
    back by a full inbound queue.  With room for what is in flight it
    returns. *)
Lemma recvRoutine_peer_closed (k : nat) : forall i wc p,
  (length (Pipe.inbox (soc wc) p) <= k)%nat ->
  Chan.closed (Recv wc) = false ->
  Chan.closed (Error wc) = false ->
  Pipe.is_closed (Pipe.other (soc wc)) p = true ->
  exists st wc' p',
    loop (S k) (fun _ => recvIter) i wc p = (st, wc', p') /\
    (st = Return /\ Chan.closed (Recv wc') = true \/
     st = Park /\ Chan.closed (Recv wc') = false /\
     (Chan.cap (Recv wc') <= length (Chan.buf (Recv wc')))%nat) /\
    ((length (Chan.buf (Recv wc)) + length (Pipe.inbox (soc wc) p)
      <= Chan.cap (Recv wc))%nat -> st = Return).
Proof.
  induction k as [|k IH]; intros i wc p Hlen Hr He Hpeer;
    destruct (recvIter_peer_closed wc p Hr He Hpeer) as (st & wc' & p' & Hit & Hst);
    change (loop (S ?f) (fun _ => recvIter) i wc p)
      with (match recvIter wc p with
            | (Continue, wc', n') => loop f (fun _ => recvIter) (S i) wc' n'
            | r => r
            end);
    rewrite Hit; destruct st as [| | |pv]; try done.
  - destruct Hst as (_ & _ & _ & _ & _ & Hlt & _). lia.
  - exists Return, wc', p'. split; [done|]. split; [by left|done].
  - exists Park, wc', p'. split; [done|].
    destruct Hst as (? & ? & ?). split; [by right|]. lia.
  - destruct Hst as (Hsoc & Hr' & He' & Hcap & Hpeer' & Hlt & Hle).
    destruct (IH (S i) wc' p') as (st & wc'' & p'' & Hloop & Hres & Hroom).
    + rewrite Hsoc. lia.
    + done.
    + done.
    + by rewrite Hsoc.
    + exists st, wc'', p''. split; [done|]. split; [done|].
      intros Hfits. apply Hroom. rewrite Hsoc, Hcap. lia.
  - exists Return, wc', p'. split; [done|]. split; [by left|done].
  - exists Park, wc', p'. split; [done|].
    destruct Hst as (? & ? & ?). split; [by right|]. lia.
Qed.

(** C5.  [Close] is idempotent.  Endpoint [a] has not been shut down and
    holds one end of the stream; endpoint [b] holds the other end.
    The first [Close] on [a] returns normally, leaves the shutdown signal
    set and the outbound queue closed (what the queue held stays
    queued), and closes [a]'s end of the stream with a single call of
    its [Close].  A second [Close] returns normally and changes neither
    the channel value nor the network state, so the stream sees no
    further call.  On the peer, the receive goroutine then comes to rest
    within one iteration per document still in flight, plus one: either
    it has returned, which closes [b]'s inbound queue, that once, by the
    deferred call of a goroutine that has ended, or it is held back by a
    full inbound queue; when the inbound queue has room for what is in
    flight it is the former. *)
Theorem Close_twice_closes_once
    (a b : WebChan (conn := Pipe.side)) (p : Pipe.state doc) :
  soc b = Pipe.other (soc a) ->
  not_shut_down a ->
  Chan.closed (Send a) = false ->
  Pipe.is_closed (soc a) p = false ->
  Chan.closed (Recv b) = false ->
  Chan.closed (Error b) = false ->
  exists a1 p1,
    Close a p = (Return, a1, p1) /\
    Chan.closed (closeRecvChan a1) = true /\
    Chan.closed (Send a1) = true /\
    Chan.buf (Send a1) = Chan.buf (Send a) /\
    Pipe.is_closed (soc a) p1 = true /\
    Pipe.closeCalls (soc a) p1 = S (Pipe.closeCalls (soc a) p) /\
    Close a1 p1 = (Return, a1, p1) /\
    exists st b' p',
      recvRoutine (S (length (Pipe.inbox (soc b) p1))) b p1 = (st, b', p') /\
      (st = Return /\ Chan.closed (Recv b') = true \/
       st = Park /\ Chan.closed (Recv b') = false /\
       (Chan.cap (Recv b') <= length (Chan.buf (Recv b')))%nat) /\
      ((length (Chan.buf (Recv b)) + length (Pipe.inbox (soc b) p1)
        <= Chan.cap (Recv b))%nat -> st = Return).
Proof.
  intros Hsoc Hs Hopen Hp Hr He.
  destruct (Close_idempotent a p Hs Hopen) as [H1 H2].
  exists (closed_down a), (Pipe.mark_closed (soc a) p).
  assert (Hn1 : (conn_Close (soc a) p).2 = Pipe.mark_closed (soc a) p) by done.
  rewrite Hn1 in H1, H2.
  split; [done|]. split; [done|]. split; [done|]. split; [done|].
  split; [by rewrite is_closed_mark_closed|].
  split; [by rewrite closeCalls_mark_closed|].
  split; [done|].
  unfold recvRoutine. apply recvRoutine_peer_closed; try done.
  rewrite Hsoc, other_other. by rewrite is_closed_mark_closed.
Qed.

End PipeShutdown.

(* ===================================================================== *)
(** ** The statements at the concrete configuration *)
(* ===================================================================== *)

(** From here on the model runs on the example runtime. *)
#[global] Existing Instance Example.runtime.

Lemma Example_range : range_of Example.a Example.rng.
Proof. unfold range_of, Example.rng. reflexivity. Qed.

Lemma Example_int_unregistered (wc : WebChan (conn := Pipe.side)) :
  allowedTypes wc = allowedTypes Example.a ->
  ~ registered wc (TypeOf (VInt 7)).
Proof.
  intros Ha. apply (getAllowedTypeName_false wc Example.rng (VInt 7) "").
  - unfold range_of. rewrite Ha. apply Example_range.
  - unfold getAllowedTypeName. rewrite Ha. vm_compute. reflexivity.
Qed.

(** An [int] sent on an endpoint that allows strings and points. *)
Lemma send_unregistered_panics_before_writing_witness :
  sendIter Example.rng Example.a_sent_int (Pipe.fresh (D := MiniJSON.json))
  = (Panic (PanicErr (sendError (ErrorString "type not allowed: int"))),
     Example.a, Pipe.fresh) /\
  sendRoutine 5 (fun _ => Example.rng) Example.a_sent_int
              (Pipe.fresh (D := MiniJSON.json))
  = (Panic (PanicErr (sendError (ErrorString "type not allowed: int"))),
     Example.a, Pipe.fresh).
Proof.
  destruct (send_unregistered_panics_before_writing
              (codec := MiniJSON.codec)
              Example.rng Example.a_sent_int Pipe.fresh (VInt 7) [])
    as [H1 H2].
  - reflexivity.
  - apply Example_int_unregistered. reflexivity.
  - split; [exact H1|]. apply H2. reflexivity.
Defined.

(** The panic value of that send is a [*sendError]. *)
Lemma unregistered_panic_is_a_sendError :
  ~ registered Example.a_sent_int (TypeOf (VInt 7)) /\
  sendIter Example.rng Example.a_sent_int (Pipe.fresh (D := MiniJSON.json))
  = (Panic (PanicErr (sendError (ErrorString "type not allowed: int"))),
     Example.a, Pipe.fresh) /\
  is_sendError (PanicErr (sendError (ErrorString "type not allowed: int"))) = true.
Proof.
  split; [|split].
  - apply Example_int_unregistered. reflexivity.
  - vm_compute. reflexivity.
  - reflexivity.
Qed.

Lemma unregistered_panic_carries_sendError_witness :
  exists pv wc',
    sendIter Example.rng Example.a_sent_int (Pipe.fresh (D := MiniJSON.json))
    = (Panic pv, wc', Pipe.fresh) /\
    pv = PanicErr (sendError (ErrorString "type not allowed: int")) /\
    is_sendError pv = true /\
    Error wc' = Error Example.a_sent_int.
Proof.
  apply (unregistered_panic_carries_sendError
           (codec := MiniJSON.codec)
           Example.rng Example.a_sent_int Pipe.fresh (VInt 7) []).
  - reflexivity.
  - apply Example_int_unregistered. reflexivity.
Defined.

(** Two prototypes with the same derived name, "string": construction
    succeeds and the registry holds the name once. *)
Lemma duplicate_name_is_accepted :
  fmtT (VString "a") = fmtT (VString "b") /\
  exists wc : WebChan (conn := Pipe.side),
    NewWebChan Pipe.A 1 [VString "a"; VString "b"] = inr wc /\
    map_to_list (allowedTypes wc) = [("string", TString)].
Proof.
  split; [reflexivity|]. eexists. split; [reflexivity|].
  vm_compute. reflexivity.
Qed.

(** The empty list is accepted, so the list with the duplicate is; and
    of the two prototypes named "string", the registry has the type of
    the second. *)
Lemma construction_keeps_last_duplicate_witness :
  (exists wc : WebChan (conn := Pipe.side),
      NewWebChan Pipe.A 1 [VString "a"; VString "b"] = inr wc) /\
  (exists wc : WebChan (conn := Pipe.side),
      NewNamedWebChan Pipe.A 1 Example.registry = inr wc) /\
  (forall k, allowedTypes (Example.endpoint Pipe.A) !! k
             = TypeOf <$> (Example.registry !! k)) /\
  (exists wc : WebChan (conn := Pipe.side),
      NewWebChan Pipe.A 1 [VString "a"; VString "b"] = inr wc /\
      forall k, allowedTypes wc !! k
                = TypeOf <$> last (filter (fun v => fmtT v = k)
                                          [VString "a"; VString "b"])).
Proof.
  destruct (construction_keeps_last_duplicate
              (rt := Example.runtime)
              Pipe.A 1 [VString "a"; VString "b"] Example.registry)
    as (Hlist & Hmap & Hlast & _).
  destruct (construction_keeps_last_duplicate
              (rt := Example.runtime)
              Pipe.A 100 [] Example.registry)
    as (_ & _ & _ & Hnamed).
  assert (Hdup : exists wc : WebChan (conn := Pipe.side),
             NewWebChan Pipe.A 1 [VString "a"; VString "b"] = inr wc).
  { apply (Hlist []). eexists. vm_compute. reflexivity. }
  split; [exact Hdup|]. split; [|split].
  - apply (Hmap ∅). eexists. vm_compute. reflexivity.
  - apply (Hnamed (Example.endpoint Pipe.A)). vm_compute. reflexivity.
  - destruct Hdup as [wc Hwc]. exists wc. split; [exact Hwc|].
    by apply Hlast.
Defined.


(** [Close], then a late send. *)
Lemma send_after_Close_panics_witness :
  Close Example.a (Pipe.fresh (D := MiniJSON.json))
  = (Return, closed_down Example.a, Example.a_closed) /\
  push_Send (VString "late") (closed_down Example.a)
  = (Panic send_on_closed, closed_down Example.a).
Proof.
  split; [reflexivity|].
  destruct (send_after_Close_panics
              (codec := MiniJSON.codec)
              Example.a (Pipe.fresh (D := MiniJSON.json))
              Return (closed_down Example.a) Example.a_closed)
    as (_ & _ & Hpanic & _).
  - reflexivity.
  - reflexivity.
  - apply Hpanic.
Defined.

(** A frame named "nope" carrying the number 5: the name is reported,
    then the 5 is read as a name and reported in turn. *)
Lemma recv_unregistered_name_reports_and_desyncs_witness :
  let e1 := recvError (ErrorString "type not allowed: nope") in
  let e2 := recvError (ErrorString
              "json: cannot unmarshal number into Go value of type string") in
  let b1 := set_Error (Chan.Mk [e1] 100 false) Example.b in
  let b2 := set_Error (Chan.Mk [e1; e2] 100 false) Example.b in
  recvIter Example.b (Example.towards_b [MiniJSON.JStr "nope"; MiniJSON.JNum 5])
  = (Continue, b1, Example.towards_b [MiniJSON.JNum 5]) /\
  recvIter b1 (Example.towards_b [MiniJSON.JNum 5])
  = (Continue, b2, Example.towards_b []).
Proof.
  destruct (recv_unregistered_name_reports_and_desyncs
              (codec := MiniJSON.codec)
              Example.b
              (Example.towards_b [MiniJSON.JStr "nope"; MiniJSON.JNum 5])
              (MiniJSON.JStr "nope")
              (Example.towards_b [MiniJSON.JNum 5]) "nope")
    as (H1 & _ & H3).
  - reflexivity.
  - reflexivity.
  - reflexivity.
  - reflexivity.
  - vm_compute. reflexivity.
  - split; [exact H1|].
    destruct (H3 (MiniJSON.JNum 5) (Example.towards_b [])) as [_ H4].
    + reflexivity.
    + apply H4. reflexivity.
Defined.

(** A write on a closed stream, a name that is not a string, a payload
    of the wrong type, and the end of the stream. *)
Lemma loops_survive_transport_and_codec_errors_witness :
  let ew := Wrapped "write pipe" ErrClosed in
  let ed := ErrorString "json: cannot unmarshal number into Go value of type string" in
  sendIter Example.rng Example.a_sent Example.a_closed
  = (Continue,
     set_Error (Chan.Mk [sendError ew] 100 false)
               (dequeued Example.a_sent [Example.point12]),
     Example.a_closed) /\
  recvIter Example.b (Example.towards_b [MiniJSON.JNum 5])
  = (Continue, set_Error (Chan.Mk [recvError ed] 100 false) Example.b,
     Example.towards_b []) /\
  recvIter Example.b (Example.towards_b [MiniJSON.JStr "greeting"; MiniJSON.JNum 5])
  = (Continue, set_Error (Chan.Mk [recvError ed] 100 false) Example.b,
     Example.towards_b []) /\
  (~ not_shut_down Example.b \/
   (exists e n1, DecodeString Example.b Example.a_closed = (DecodeErr e, n1)
                 /\ closed_class e = true) \/
   (exists k t n1 e n2,
       DecodeString Example.b Example.a_closed = (Decoded k, n1) /\
       allowedTypes Example.b !! k = Some t /\
       DecodeInto Example.b (New t) n1 = Some (DecodeErr e, n2) /\
       closed_class e = true)).
Proof.
  destruct (loops_survive_transport_and_codec_errors
              (codec := MiniJSON.codec) (conn := Pipe.side)
              (net := Pipe.state MiniJSON.json))
    as (_ & Hsend & Hname & Hpayload & Hreturn).
  split; [|split; [|split]].
  - apply (Hsend Example.rng Example.a_sent Example.a_closed
                 (VString "hello") [Example.point12] "greeting"
                 (Wrapped "write pipe" ErrClosed) Example.a_closed).
    + reflexivity.
    + reflexivity.
    + vm_compute. reflexivity.
    + left. reflexivity.
  - apply (Hname Example.b (Example.towards_b [MiniJSON.JNum 5])
                 (ErrorString "json: cannot unmarshal number into Go value of type string")
                 (Example.towards_b [])).
    + reflexivity.
    + reflexivity.
    + reflexivity.
    + reflexivity.
  - apply (Hpayload Example.b
                    (Example.towards_b [MiniJSON.JStr "greeting"; MiniJSON.JNum 5])
                    "greeting" TString (Example.towards_b [MiniJSON.JNum 5])
                    (ErrorString "json: cannot unmarshal number into Go value of type string")
                    (Example.towards_b [])).
    + reflexivity.
    + reflexivity.
    + reflexivity.
    + vm_compute. reflexivity.
    + reflexivity.
    + reflexivity.
  - apply (Hreturn Example.b Example.a_closed). vm_compute. reflexivity.
Defined.

Lemma Example_names_survive (k : string) : name_survives (codec := MiniJSON.codec) k.
Proof. exists (MiniJSON.JStr k). split; reflexivity. Qed.

(** The point, sent from [a] to [b]. *)
Lemma round_trip_witness :
  exists a1 a2 p1 b2 p2 k fr,
    push_Send Example.point12 Example.a = (Continue, a1) /\
    sendRoutine 2 (fun _ => Example.rng) a1 (Pipe.fresh (D := MiniJSON.json))
    = (Park, a2, p1) /\
    allowedTypes Example.a !! k = Some (TypeOf Example.point12) /\
    is_frame k Example.point12 fr /\
    Pipe.inbox (Pipe.other Pipe.A) p1 = fr /\
    recvRoutine 2 Example.b p1 = (Park, b2, p2) /\
    Chan.buf (Recv b2) = [Example.point12] /\
    Pipe.inbox (Pipe.other Pipe.A) p2 = [].
Proof.
  apply (round_trip (codec := MiniJSON.codec)
                    Example.registry 100 Pipe.A Example.point12
                    Example.a Example.b (fun _ => Example.rng)).
  - vm_compute. reflexivity.
  - vm_compute. reflexivity.
  - lia.
  - exists "point", (VStruct "webchan" "webchan" "point" [("X", VInt 0); ("Y", VInt 0)]).
    split; [vm_compute; reflexivity | reflexivity].
  - exists (MiniJSON.marshal Example.point12). split; reflexivity.
  - intros k proto _ _. apply Example_names_survive.
  - intros i. apply Example_range.
Defined.

Lemma Example_sendable :
  Forall (sendable (codec := MiniJSON.codec) Example.a)
         [VString "hello"; Example.point12].
Proof.
  repeat constructor.
  - exists "greeting". vm_compute. reflexivity.
  - eexists. reflexivity.
  - intros k _. eexists. reflexivity.
  - exists "point". vm_compute. reflexivity.
  - eexists. reflexivity.
  - intros k _. eexists. reflexivity.
Qed.

Lemma Example_decodes :
  Forall2 (decodes_to (codec := MiniJSON.codec) Example.b)
          [[MiniJSON.JStr "greeting"; MiniJSON.JStr "hello"];
           [MiniJSON.JStr "point"; MiniJSON.marshal Example.point12]]
          [VString "hello"; Example.point12].
Proof.
  repeat constructor.
  - exists (MiniJSON.JStr "greeting"), (MiniJSON.JStr "hello"), "greeting", TString.
    repeat split; try (vm_compute; reflexivity).
  - exists (MiniJSON.JStr "point"), (MiniJSON.marshal Example.point12), "point",
           (TNamed "webchan" "webchan" "point").
    repeat split; try (vm_compute; reflexivity).
Qed.

(** "hello" then the point, out of [a]; their two frames, into [b]. *)
Lemma fifo_per_direction_witness :
  (exists frames wc' p',
      sendRoutine 3 (fun _ => Example.rng) Example.a_sent
                  (Pipe.fresh (D := MiniJSON.json))
      = (Park, wc', p') /\
      Forall2 (encodes_to Example.a) [VString "hello"; Example.point12] frames /\
      Chan.buf (Send wc') = [] /\
      Pipe.inbox Pipe.B p' = concat frames /\
      Pipe.inbox Pipe.A p' = []) /\
  (exists wc' p',
      recvRoutine 3 Example.b
        (Example.towards_b
           [MiniJSON.JStr "greeting"; MiniJSON.JStr "hello";
            MiniJSON.JStr "point"; MiniJSON.marshal Example.point12])
      = (Park, wc', p') /\
      Chan.buf (Recv wc') = [VString "hello"; Example.point12] /\
      Pipe.inbox Pipe.B p' = []).
Proof.
  destruct (fifo_per_direction (codec := MiniJSON.codec)) as [Hout Hin].
  split.
  - apply (Hout [VString "hello"; Example.point12] (fun _ => Example.rng)
                Example.a Example.a_sent Pipe.fresh).
    + intros j. apply Example_range.
    + reflexivity.
    + reflexivity.
    + apply Example_sendable.
    + reflexivity.
    + reflexivity.
  - apply (Hin [[MiniJSON.JStr "greeting"; MiniJSON.JStr "hello"];
                [MiniJSON.JStr "point"; MiniJSON.marshal Example.point12]]
               [VString "hello"; Example.point12]
               Example.b
               (Example.towards_b
                  [MiniJSON.JStr "greeting"; MiniJSON.JStr "hello";
                   MiniJSON.JStr "point"; MiniJSON.marshal Example.point12])).
    + reflexivity.
    + reflexivity.
    + simpl. lia.
    + reflexivity.
    + reflexivity.
    + reflexivity.
    + apply Example_decodes.
Defined.

(** [Close] twice on [a], with [b] on the other end of a fresh stream. *)
Lemma Close_twice_closes_once_witness :
  exists a1 p1,
    Close Example.a (Pipe.fresh (D := MiniJSON.json)) = (Return, a1, p1) /\
    Chan.closed (closeRecvChan a1) = true /\
    Chan.closed (Send a1) = true /\
    Chan.buf (Send a1) = Chan.buf (Send Example.a) /\
    Pipe.is_closed Pipe.A p1 = true /\
    Pipe.closeCalls Pipe.A p1 = 1%nat /\
    Close a1 p1 = (Return, a1, p1) /\
    exists st b' p',
      recvRoutine (S (length (Pipe.inbox Pipe.B p1))) Example.b p1 = (st, b', p') /\
      (st = Return /\ Chan.closed (Recv b') = true \/
       st = Park /\ Chan.closed (Recv b') = false /\
       (Chan.cap (Recv b') <= length (Chan.buf (Recv b')))%nat) /\
      ((length (Chan.buf (Recv Example.b)) + length (Pipe.inbox Pipe.B p1)
        <= Chan.cap (Recv Example.b))%nat -> st = Return).
Proof.
  apply (Close_twice_closes_once (codec := MiniJSON.codec)
                                 Example.a Example.b Pipe.fresh);
    reflexivity.
Defined.

(* ===================================================================== *)
(** ** What the operations keep *)
(* ===================================================================== *)

Section Invariants.

Context {codec : Codec} {conn net : Type} {netconn : NetConn doc conn net}.
Implicit Types (wc : WebChan (conn := conn)) (n : net).

Lemma same_frame_refl wc : same_frame wc wc.
Proof. by repeat split. Qed.

Lemma same_frame_trans wc1 wc2 wc3 :
  same_frame wc1 wc2 -> same_frame wc2 wc3 -> same_frame wc1 wc3.
Proof.
  intros (?&?&?&?&?) (?&?&?&?&?). repeat split; congruence.
Qed.

Lemma errors_appended_refl P wc : errors_appended P wc wc.
Proof.
  split; [|by repeat split]. exists []. split; [by rewrite app_nil_r|constructor].
Qed.

Lemma errors_appended_trans P wc1 wc2 wc3 :
  errors_appended P wc1 wc2 -> errors_appended P wc2 wc3 ->
  errors_appended P wc1 wc3.
Proof.
  intros ((new1 & Hb1 & HP1) & Hc1 & Hk1 & Hl1) ((new2 & Hb2 & HP2) & Hc2 & Hk2 & Hl2).
  split; [|split; [congruence|split; [congruence|auto]]].
  exists (new1 ++ new2)%list. split.
  - by rewrite Hb2, Hb1, app_assoc.
  - by apply Forall_app.
Qed.

Lemma errors_appended_same P wc wc' :
  Error wc' = Error wc -> errors_appended P wc wc'.
Proof.
  intros H. unfold errors_appended. rewrite H.
  split; [|done]. exists []. split; [by rewrite app_nil_r|constructor].
Qed.

Lemma tryPushError_same_frame err wc : same_frame wc (tryPushError err wc).2.
Proof.
  unfold tryPushError, Chan.send.
  destruct (Chan.closed (Error wc)); [by repeat split|].
  destruct (_ <? _)%nat; by repeat split.
Qed.

Lemma tryPushError_appended (P : goerror -> Prop) err wc :
  P err -> errors_appended P wc (tryPushError err wc).2.
Proof.
  intros HP. unfold tryPushError, Chan.send.
  destruct (Chan.closed (Error wc)) eqn:Hc; [apply errors_appended_refl|].
  destruct (Nat.ltb_spec (length (Chan.buf (Error wc))) (Chan.cap (Error wc)));
    [|apply errors_appended_refl].
  simpl. split; [|split; [done|split; [done|]]].
  - exists [err]. split; [done|by constructor].
  - simpl. rewrite length_app. simpl. lia.
Qed.

Lemma sendIter_same_frame rng wc n : same_frame wc (sendIter rng wc n).1.2.
Proof.
  unfold sendIter.
  destruct (Chan.recv (Send wc)) as [data c| |] eqn:Hr;
    [|apply same_frame_refl|apply same_frame_refl].
  assert (Hcap : Chan.cap c = Chan.cap (Send wc)).
  { revert Hr. unfold Chan.recv. destruct (Chan.buf (Send wc)).
    - by destruct (Chan.closed (Send wc)).
    - by intros [= _ <-]. }
  assert (Hf : same_frame wc (set_Send c wc)) by by repeat split.
  destruct (getAllowedTypeName _ rng data) as [k [|]]; [|done].
  destruct (Encode _ (VString k) n) as [[e|] n1].
  - pose proof (tryPushError_same_frame (sendError e) (set_Send c wc)) as Ht.
    destruct (tryPushError _ _) as [st wc']. simpl in *.
    by eapply same_frame_trans.
  - destruct (Encode _ data n1) as [[e|] n2]; [|done].
    pose proof (tryPushError_same_frame (sendError e) (set_Send c wc)) as Ht.
    destruct (tryPushError _ _) as [st wc']. simpl in *.
    by eapply same_frame_trans.
Qed.

Lemma sendIter_appended rng wc n :
  errors_appended is_send wc (sendIter rng wc n).1.2.
Proof.
  unfold sendIter.
  destruct (Chan.recv (Send wc)) as [data c| |] eqn:Hr;
    [|apply errors_appended_refl|apply errors_appended_refl].
  destruct (getAllowedTypeName _ rng data) as [k [|]];
    [|by apply errors_appended_same].
  destruct (Encode _ (VString k) n) as [[e|] n1].
  - pose proof (tryPushError_appended is_send (sendError e) (set_Send c wc)) as Ht.
    destruct (tryPushError _ _) as [st wc']. simpl in *.
    apply (errors_appended_trans _ _ (set_Send c wc));
      [by apply errors_appended_same|]. apply Ht. by exists e.
  - destruct (Encode _ data n1) as [[e|] n2]; [|by apply errors_appended_same].
    pose proof (tryPushError_appended is_send (sendError e) (set_Send c wc)) as Ht.
    destruct (tryPushError _ _) as [st wc']. simpl in *.
    apply (errors_appended_trans _ _ (set_Send c wc));
      [by apply errors_appended_same|]. apply Ht. by exists e.
Qed.

Lemma recvDeferred_same_frame st wc : same_frame wc (recvDeferred st wc).2.
Proof. unfold recvDeferred, Chan.close. by destruct (Chan.closed (Recv wc)). Qed.

Lemma recvDeferred_Error st wc : Error (recvDeferred st wc).2 = Error wc.
Proof. unfold recvDeferred, Chan.close. by destruct (Chan.closed (Recv wc)). Qed.

Lemma recvDecodeFailed_same_frame err wc : same_frame wc (recvDecodeFailed err wc).2.
Proof.
  unfold recvDecodeFailed. destruct (_ || _); [apply same_frame_refl|].
  apply tryPushError_same_frame.
Qed.

Lemma recvDecodeFailed_appended err wc :
  errors_appended is_recv wc (recvDecodeFailed err wc).2.
Proof.
  unfold recvDecodeFailed. destruct (_ || _); [apply errors_appended_refl|].
  apply tryPushError_appended. by exists err.
Qed.

Lemma recvBody_same_frame wc n : same_frame wc (recvBody wc n).1.2.
Proof.
  unfold recvBody.
  destruct (Chan.recv (closeRecvChan wc)) as [x c| |]; [done|done|].
  destruct (DecodeString wc n) as [[k|e|] n1]; [| |done].
  - unfold createTypeInterfaceReflectPointer.
    destruct (allowedTypes wc !! k) as [t|].
    + destruct (DecodeInto wc (New t) n1) as [[[v|e|] n2]|]; [| |done|done].
      * unfold Chan.send. destruct (Chan.closed (Recv wc)); [done|].
        by destruct (_ <? _)%nat.
      * pose proof (recvDecodeFailed_same_frame e wc).
        by destruct (recvDecodeFailed e wc).
    + pose proof (tryPushError_same_frame
                    (recvError (ErrorString ("type not allowed: " ++ k))) wc).
      by destruct (tryPushError _ wc).
  - pose proof (recvDecodeFailed_same_frame e wc).
    by destruct (recvDecodeFailed e wc).
Qed.

Lemma recvBody_appended wc n : errors_appended is_recv wc (recvBody wc n).1.2.
Proof.
  unfold recvBody.
  destruct (Chan.recv (closeRecvChan wc)) as [x c| |];
    [by apply errors_appended_same|apply errors_appended_refl|].
  destruct (DecodeString wc n) as [[k|e|] n1]; [| |apply errors_appended_refl].
  - unfold createTypeInterfaceReflectPointer.
    destruct (allowedTypes wc !! k) as [t|].
    + destruct (DecodeInto wc (New t) n1) as [[[v|e|] n2]|];
        [| |apply errors_appended_refl|apply errors_appended_refl].
      * unfold Chan.send. destruct (Chan.closed (Recv wc));
          [apply errors_appended_refl|].
        destruct (_ <? _)%nat; [by apply errors_appended_same|].
        apply errors_appended_refl.
      * pose proof (recvDecodeFailed_appended e wc).
        by destruct (recvDecodeFailed e wc).
    + pose proof (tryPushError_appended is_recv
                    (recvError (ErrorString ("type not allowed: " ++ k))) wc) as Ht.
      destruct (tryPushError _ wc). apply Ht. by eexists.
  - pose proof (recvDecodeFailed_appended e wc).
    by destruct (recvDecodeFailed e wc).
Qed.

Lemma recvIter_same_frame wc n : same_frame wc (recvIter wc n).1.2.
Proof.
  unfold recvIter. pose proof (recvBody_same_frame wc n) as Hb.
  destruct (recvBody wc n) as [[st wc1] n1]. simpl in Hb.
  destruct st; try done.
  - pose proof (recvDeferred_same_frame Return wc1).
    destruct (recvDeferred Return wc1). by eapply same_frame_trans.
  - pose proof (recvDeferred_same_frame (Panic pv) wc1).
    destruct (recvDeferred (Panic pv) wc1). by eapply same_frame_trans.
Qed.

Lemma recvIter_appended wc n : errors_appended is_recv wc (recvIter wc n).1.2.
Proof.
  unfold recvIter. pose proof (recvBody_appended wc n) as Hb.
  destruct (recvBody wc n) as [[st wc1] n1]. simpl in Hb.
  destruct st; try done.
  - pose proof (recvDeferred_Error Return wc1) as He.
    destruct (recvDeferred Return wc1). simpl in *.
    eapply errors_appended_trans; [exact Hb|by apply errors_appended_same].
  - pose proof (recvDeferred_Error (Panic pv) wc1) as He.
    destruct (recvDeferred (Panic pv) wc1). simpl in *.
    eapply errors_appended_trans; [exact Hb|by apply errors_appended_same].
Qed.

Lemma Close_same_frame wc n : same_frame wc (Close wc n).1.2.
Proof.
  unfold Close, Chan.close.
  destruct (Chan.recv (closeRecvChan wc)) as [x c| |]; [done|done|].
  destruct (Chan.closed (closeRecvChan wc)); [done|]. simpl.
  destruct (Chan.closed (Send wc)); [done|].
  by destruct (conn_Close (soc wc) n).
Qed.

Lemma Close_Error_Recv wc n :
  Error (Close wc n).1.2 = Error wc /\ Recv (Close wc n).1.2 = Recv wc.
Proof.
  unfold Close, Chan.close.
  destruct (Chan.recv (closeRecvChan wc)) as [x c| |]; [done|done|].
  destruct (Chan.closed (closeRecvChan wc)); [done|]. simpl.
  destruct (Chan.closed (Send wc)); [done|].
  by destruct (conn_Close (soc wc) n).
Qed.

(** A relation that is reflexive, transitive and kept by every iteration
    is kept by the whole run. *)
Lemma loop_keeps (R : WebChan (conn := conn) -> WebChan (conn := conn) -> Prop)
    (iter : nat -> WebChan (conn := conn) -> net -> status * WebChan (conn := conn) * net) :
  (forall wc, R wc wc) ->
  (forall wc1 wc2 wc3, R wc1 wc2 -> R wc2 wc3 -> R wc1 wc3) ->
  (forall i wc n, R wc (iter i wc n).1.2) ->
  forall fuel i wc n, R wc (loop fuel iter i wc n).1.2.
Proof.
  intros Hrefl Htrans Hiter fuel.
  induction fuel as [|fuel IH]; intros i wc n; simpl; [apply Hrefl|].
  pose proof (Hiter i wc n) as H1.
  destruct (iter i wc n) as [[st wc1] n1]. simpl in H1.
  destruct st; try done.
  eapply Htrans; [exact H1|apply IH].
Qed.

End Invariants.

Section Reachable.

Context {rt : GoRuntime} {codec : Codec}
        {conn net : Type} {netconn : NetConn doc conn net}.
Implicit Types (wc : WebChan (conn := conn)) (n : net).

Lemma push_Send_same_frame v wc : same_frame wc (push_Send v wc).2.
Proof.
  unfold push_Send, Chan.send. destruct (Chan.closed (Send wc)); [done|].
  by destruct (_ <? _)%nat.
Qed.

Lemma recv_value_cap {A} (c c' : Chan.t A) x :
  Chan.recv c = Chan.RecvValue x c' ->
  Chan.cap c' = Chan.cap c /\ Chan.closed c' = Chan.closed c /\
  Chan.buf c = x :: Chan.buf c'.
Proof.
  unfold Chan.recv. destruct (Chan.buf c) as [|y l].
  - by destruct (Chan.closed c).
  - by intros [= <- <-].
Qed.

Lemma step_same_frame wc n wc' n' : step (wc, n) (wc', n') -> same_frame wc wc'.
Proof.
  inversion 1; subst.
  - apply sendIter_same_frame.
  - apply recvIter_same_frame.
  - apply Close_same_frame.
  - apply push_Send_same_frame.
  - match goal with H : Chan.recv _ = _ |- _ =>
      apply recv_value_cap in H as (? & ? & ?) end.
    by repeat split.
  - match goal with H : Chan.recv _ = _ |- _ =>
      apply recv_value_cap in H as (? & ? & ?) end.
    by repeat split.
  - apply same_frame_refl.
Qed.

(** A property of channel values that every step keeps holds all along. *)
Lemma rtc_step_keeps (I : WebChan (conn := conn) -> Prop) :
  (forall wc n wc' n', step (wc, n) (wc', n') -> I wc -> I wc') ->
  forall wc n wc' n', rtc step (wc, n) (wc', n') -> I wc -> I wc'.
Proof.
  intros Hstep wc n wc' n' H.
  remember (wc, n) as x eqn:Hx. remember (wc', n') as y eqn:Hy.
  revert wc n Hx. induction H as [x|x [wc1 n1] z Hs Hrtc IH]; intros wc n ->.
  - by injection Hy as <- <-.
  - intros HI. eapply IH; [done|done|]. by eapply Hstep.
Qed.

Lemma rtc_step_same_frame wc n wc' n' :
  rtc step (wc, n) (wc', n') -> same_frame wc wc'.
Proof.
  intros H.
  apply (rtc_step_keeps (fun w => same_frame wc w) ) with (wc := wc) (n := n) (n' := n');
    [|done|apply same_frame_refl].
  intros w1 n1 w2 n2 Hs Hf. eapply same_frame_trans; [exact Hf|].
  by eapply step_same_frame.
Qed.

(** X1.  Whatever happens to an endpoint (iterations of its two
    goroutines, calls of [Close], the caller's sends and receives,
    events on the network, in any number and order) its registry, the
    socket it holds and the capacities of its three queues stay what
    they were. *)
Theorem registry_and_capacities_never_change
    (wc wc' : WebChan (conn := conn)) (n n' : net) :
  rtc step (wc, n) (wc', n') ->
  allowedTypes wc' = allowedTypes wc /\
  soc wc' = soc wc /\
  Chan.cap (Send wc') = Chan.cap (Send wc) /\
  Chan.cap (Recv wc') = Chan.cap (Recv wc) /\
  Chan.cap (Error wc') = Chan.cap (Error wc).
Proof. apply rtc_step_same_frame. Qed.

(** What every step keeps of the error queue. *)
Lemma step_Error_queue wc n wc' n' :
  step (wc, n) (wc', n') ->
  Chan.closed (Error wc) = false /\
  (length (Chan.buf (Error wc)) <= Chan.cap (Error wc))%nat /\
  Forall (fun e => is_send e \/ is_recv e) (Chan.buf (Error wc)) ->
  Chan.closed (Error wc') = false /\
  (length (Chan.buf (Error wc')) <= Chan.cap (Error wc'))%nat /\
  Forall (fun e => is_send e \/ is_recv e) (Chan.buf (Error wc')).
Proof.
  assert (Happ : forall (P : goerror -> Prop) (w w' : WebChan (conn := conn)),
             (forall e, P e -> is_send e \/ is_recv e) ->
             errors_appended P w w' ->
             Chan.closed (Error w) = false ->
             (length (Chan.buf (Error w)) <= Chan.cap (Error w))%nat ->
             Forall (fun e => is_send e \/ is_recv e) (Chan.buf (Error w)) ->
             Chan.closed (Error w') = false /\
             (length (Chan.buf (Error w')) <= Chan.cap (Error w'))%nat /\
             Forall (fun e => is_send e \/ is_recv e) (Chan.buf (Error w'))).
  { intros P w w' HP ((new & Hb & Hnew) & Hc & Hk & Hl) Ho Hlen Hall.
    split; [congruence|]. split; [auto|].
    rewrite Hb. apply Forall_app. split; [done|].
    eapply Forall_impl; [exact Hnew|]. done. }
  inversion 1; subst; intros (Ho & Hlen & Hall).
  - eapply (Happ is_send); [by left|apply sendIter_appended|done..].
  - eapply (Happ is_recv); [by right|apply recvIter_appended|done..].
  - by rewrite (proj1 (Close_Error_Recv wc n)).
  - unfold push_Send, Chan.send. destruct (Chan.closed (Send wc)); [done|].
    by destruct (_ <? _)%nat.
  - done.
  - match goal with H : Chan.recv _ = _ |- _ =>
      apply recv_value_cap in H as (Hk & Hc & Hb) end.
    simpl. rewrite Hb in Hlen, Hall. simpl in Hlen.
    apply Forall_cons in Hall as [_ Hall].
    split; [congruence|]. split; [lia|done].
  - done.
Qed.

(** X2.  From construction on, whatever happens to an endpoint, its
    error queue is open (the package never closes it), holds at most
    100 errors, and holds nothing but [*sendError] and [*recvError]
    values. *)
Theorem error_queue_open_bounded_and_typed
    (s : conn) (bufLength : Z) (m : gmap string value)
    (wc0 wc : WebChan (conn := conn)) (n0 n : net) :
  NewNamedWebChan s bufLength m = inr wc0 ->
  rtc step (wc0, n0) (wc, n) ->
  Chan.closed (Error wc) = false /\
  (length (Chan.buf (Error wc)) <= 100)%nat /\
  Forall (fun e => is_send e \/ is_recv e) (Chan.buf (Error wc)).
Proof.
  intros [_ ->]%NewNamedWebChan_inr Hrtc.
  set (wc0 := mkWebChan _ _ _ _ _ _) in Hrtc.
  assert (Hcap : Chan.cap (Error wc) = 100%nat).
  { by destruct (rtc_step_same_frame wc0 n0 wc n Hrtc) as (_ & _ & _ & _ & ->). }
  rewrite <- Hcap.
  apply (rtc_step_keeps
           (fun w => Chan.closed (Error w) = false /\
                     (length (Chan.buf (Error w)) <= Chan.cap (Error w))%nat /\
                     Forall (fun e => is_send e \/ is_recv e) (Chan.buf (Error w))))
    with (wc := wc0) (n := n0) (n' := n); [|done|].
  - intros w1 n1 w2 n2. apply step_Error_queue.
  - split; [done|]. split; [simpl; lia|constructor].
Qed.

End Reachable.

Section MoreLifecycle.

Context {codec : Codec} {conn net : Type} {netconn : NetConn doc conn net}.
Implicit Types (wc : WebChan (conn := conn)) (n : net).

(** X3.  Each goroutine reports only its own kind of error, and only
    at the tail of the error queue: a run of the send goroutine leaves
    the errors that were queued where they were and adds nothing but
    [*sendError] values after them; a run of the receive goroutine
    likewise adds nothing but [*recvError] values. *)
Theorem goroutines_report_their_own_kind
    (rng : nat -> list string) (fuel : nat) wc n :
  (exists new,
      Chan.buf (Error (sendRoutine fuel rng wc n).1.2)
      = (Chan.buf (Error wc) ++ new)%list /\
      Forall is_send new) /\
  (exists new,
      Chan.buf (Error (recvRoutine fuel wc n).1.2)
      = (Chan.buf (Error wc) ++ new)%list /\
      Forall is_recv new).
Proof.
  split.
  - refine (proj1 (loop_keeps (errors_appended is_send) _ _ _ _ fuel 0%nat wc n)).
    + apply errors_appended_refl.
    + apply errors_appended_trans.
    + intros i w m. apply sendIter_appended.
  - refine (proj1 (loop_keeps (errors_appended is_recv) _ _ _ _ fuel 0%nat wc n)).
    + apply errors_appended_refl.
    + apply errors_appended_trans.
    + intros i w m. apply recvIter_appended.
Qed.

(** X5.  [Close] does not close the inbound queue itself; it leaves
    that to the receive goroutine.  After the first [Close], the next
    iteration of the endpoint's own receive goroutine returns at once
    and closes the inbound queue, whatever state the network is in and
    without reading from it. *)
Theorem receive_goroutine_returns_after_Close wc n n' :
  not_shut_down wc ->
  Chan.closed (Send wc) = false ->
  Chan.closed (Recv wc) = false ->
  exists wc1 n1,
    Close wc n = (Return, wc1, n1) /\
    Recv wc1 = Recv wc /\
    recvIter wc1 n' = (Return, Recv_closed_by_return wc1, n').
Proof.
  intros Hs Hopen Hr. exists (closed_down wc), (conn_Close (soc wc) n).2.
  split; [by apply Close_first|]. split; [done|].
  unfold recvIter, recvBody. rewrite (closed_down_signalled wc Hs).
  by rewrite recvDeferred_open.
Qed.

(** X6.  When the caller has closed [wc.Send] by hand, the first [Close]
    panics with "close of closed channel".  By then it has set the
    shutdown signal but has not reached the call that closes the
    socket, and every later [Close] returns at once: no call of [Close]
    ever closes the socket of such an endpoint. *)
Theorem Close_after_Send_closed_by_hand wc n :
  not_shut_down wc ->
  Chan.closed (Send wc) = true ->
  exists wc1,
    Close wc n = (Panic close_of_closed, wc1, n) /\
    Chan.closed (closeRecvChan wc1) = true /\
    forall n2, Close wc1 n2 = (Return, wc1, n2).
Proof.
  intros Hs Hcl.
  exists (set_closeRecvChan
            (Chan.Mk (Chan.buf (closeRecvChan wc)) (Chan.cap (closeRecvChan wc)) true)
            wc).
  pose proof Hs as [Hb Hc]%recv_would_block.
  split; [|split; [done|]].
  - unfold Close. rewrite Hs. unfold Chan.close. rewrite Hc. simpl. by rewrite Hcl.
  - intros n2. apply Close_again. by apply recv_closed.
Qed.

End MoreLifecycle.

Section PipeDirections.

Context {codec : Codec}.
Implicit Types (wc : WebChan (conn := Pipe.side)) (p : Pipe.state doc).

Lemma same_ends_refl {D} (p : Pipe.state D) : same_ends p p.
Proof. by repeat split. Qed.

Lemma same_ends_trans {D} (p1 p2 p3 : Pipe.state D) :
  same_ends p1 p2 -> same_ends p2 p3 -> same_ends p1 p3.
Proof. intros (?&?&?&?) (?&?&?&?). repeat split; congruence. Qed.

Lemma wrote_only_refl {D} s k (p : Pipe.state D) : wrote_only s k p p.
Proof.
  split; [apply same_ends_refl|]. split; [done|].
  exists []. split; [by rewrite app_nil_r|simpl; lia].
Qed.

Lemma wrote_only_trans {D} s k1 k2 (p1 p2 p3 : Pipe.state D) :
  wrote_only s k1 p1 p2 -> wrote_only s k2 p2 p3 -> wrote_only s (k1 + k2) p1 p3.
Proof.
  intros (He1 & Hi1 & new1 & Ho1 & Hl1) (He2 & Hi2 & new2 & Ho2 & Hl2).
  split; [by eapply same_ends_trans|]. split; [congruence|].
  exists (new1 ++ new2)%list. split.
  - by rewrite Ho2, Ho1, app_assoc.
  - rewrite length_app. lia.
Qed.

Lemma read_only_refl {D} s k (p : Pipe.state D) : read_only s k p p.
Proof.
  split; [apply same_ends_refl|]. split; [done|].
  exists []. split; [done|simpl; lia].
Qed.

Lemma read_only_trans {D} s k1 k2 (p1 p2 p3 : Pipe.state D) :
  read_only s k1 p1 p2 -> read_only s k2 p2 p3 -> read_only s (k1 + k2) p1 p3.
Proof.
  intros (He1 & Hi1 & u1 & Ho1 & Hl1) (He2 & Hi2 & u2 & Ho2 & Hl2).
  split; [by eapply same_ends_trans|]. split; [congruence|].
  exists (u1 ++ u2)%list. split.
  - by rewrite Ho1, Ho2, app_assoc.
  - rewrite length_app. lia.
Qed.

Lemma write_wrote_only {D} s (d : D) (p : Pipe.state D) :
  wrote_only s 1 p (Pipe.write s d p).2.
Proof.
  unfold Pipe.write.
  destruct (Pipe.is_closed s p); [apply wrote_only_refl|].
  destruct (Pipe.is_closed (Pipe.other s) p); [apply wrote_only_refl|].
  simpl. split; [by destruct s|]. split; [by destruct s|].
  exists [d]. split; [by rewrite inbox_set_inbox|simpl; lia].
Qed.

Lemma read_read_only {D} s (p : Pipe.state D) :
  read_only s 1 p (Pipe.read s p).2.
Proof.
  unfold Pipe.read.
  destruct (Pipe.is_closed s p); [apply read_only_refl|].
  destruct (Pipe.inbox s p) as [|d rest] eqn:Hin.
  - destruct (Pipe.is_closed (Pipe.other s) p); apply read_only_refl.
  - simpl. split; [by destruct s|]. split; [by destruct s|].
    exists [d]. split; [by rewrite inbox_set_inbox|simpl; lia].
Qed.

Lemma Encode_wrote_only wc v p : wrote_only (soc wc) 1 p (Encode wc v p).2.
Proof.
  unfold Encode. destruct (Marshal v); [apply wrote_only_refl|].
  apply write_wrote_only.
Qed.

Lemma DecodeString_read_only wc p : read_only (soc wc) 1 p (DecodeString wc p).2.
Proof.
  unfold DecodeString. pose proof (read_read_only (soc wc) p) as H.
  simpl. destruct (Pipe.read (soc wc) p) as [[d|e|] p1]; [|done|done].
  by destruct (UnmarshalString d).
Qed.

Lemma DecodeInto_read_only wc t p r p' :
  DecodeInto wc (New t) p = Some (r, p') -> read_only (soc wc) 1 p p'.
Proof.
  unfold DecodeInto. pose proof (read_read_only (soc wc) p) as H.
  simpl. destruct (Pipe.read (soc wc) p) as [[d|e|] p1]; by intros [= _ <-].
Qed.

(** X7.  On the stream, each goroutine keeps to its own direction and
    neither closes an end.  An iteration of the send goroutine changes
    nothing but what is in flight towards the peer, to which it appends
    at most two documents; an iteration of the receive goroutine changes
    nothing but what is in flight towards its own end, from the head of
    which it takes at most two documents. *)
Theorem goroutines_keep_to_their_direction (rng : list string) wc p :
  wrote_only (soc wc) 2 p (sendIter rng wc p).2 /\
  read_only (soc wc) 2 p (recvIter wc p).2.
Proof.
  split.
  - unfold sendIter.
    destruct (Chan.recv (Send wc)) as [data c| |];
      [|apply wrote_only_refl|apply wrote_only_refl].
    destruct (getAllowedTypeName _ rng data) as [k [|]]; [|apply wrote_only_refl].
    pose proof (Encode_wrote_only (set_Send c wc) (VString k) p) as H1.
    destruct (Encode _ (VString k) p) as [[e|] p1]; simpl in H1.
    + destruct (tryPushError _ _). simpl.
      apply (wrote_only_trans _ 1 1 _ p1); [done|apply wrote_only_refl].
    + pose proof (Encode_wrote_only (set_Send c wc) data p1) as H2.
      destruct (Encode _ data p1) as [[e|] p2]; simpl in H2.
      * destruct (tryPushError _ _). simpl.
        by apply (wrote_only_trans _ 1 1 _ p1).
      * by apply (wrote_only_trans _ 1 1 _ p1).
  - assert (Hbody : read_only (soc wc) 2 p (recvBody wc p).2 /\
                    soc (recvBody wc p).1.2 = soc wc).
    { unfold recvBody.
      destruct (Chan.recv (closeRecvChan wc)) as [x c| |];
        [split; [apply read_only_refl|done]..|].
      pose proof (DecodeString_read_only wc p) as H1.
      destruct (DecodeString wc p) as [[k|e|] p1]; simpl in H1.
      - unfold createTypeInterfaceReflectPointer.
        destruct (allowedTypes wc !! k) as [t|].
        + destruct (DecodeInto wc (New t) p1) as [[r p2]|] eqn:Hd.
          * apply DecodeInto_read_only in Hd.
            assert (H12 : read_only (soc wc) 2 p p2)
              by by apply (read_only_trans _ 1 1 _ p1).
            destruct r as [v|e|].
            -- by destruct (Chan.send (Recv wc) v).
            -- pose proof (recvDecodeFailed_same_frame e wc) as (_ & Hs & _).
               by destruct (recvDecodeFailed e wc).
            -- done.
          * simpl. split; [|done].
            apply (read_only_trans _ 1 1 _ p1); [done|apply read_only_refl].
        + pose proof (tryPushError_same_frame
                        (recvError (ErrorString ("type not allowed: " ++ k))) wc)
            as (_ & Hs & _).
          destruct (tryPushError _ wc). simpl in *. split; [|done].
          apply (read_only_trans _ 1 1 _ p1); [done|apply read_only_refl].
      - pose proof (recvDecodeFailed_same_frame e wc) as (_ & Hs & _).
        destruct (recvDecodeFailed e wc). simpl in *. split; [|done].
        apply (read_only_trans _ 1 1 _ p1); [done|apply read_only_refl].
      - simpl. split; [|done].
        apply (read_only_trans _ 1 1 _ p1); [done|apply read_only_refl]. }
    destruct Hbody as [Hb _]. unfold recvIter.
    destruct (recvBody wc p) as [[st wc1] p1]. simpl in Hb.
    destruct st; try done.
    + by destruct (recvDeferred Return wc1).
    + by destruct (recvDeferred (Panic pv) wc1).
Qed.

End PipeDirections.

Section PipeFrames.

Context {codec : Codec}.
Implicit Types (wc : WebChan (conn := Pipe.side)) (p : Pipe.state doc).

(** X8.  A frame whose name is registered but whose payload does not
    decode into the registered type costs nothing but that frame.  The
    receive goroutine consumes both of its documents, offers the decode
    error to the error queue as a [*recvError], and goes on in step with
    the stream: the values of the well-formed frames behind it are
    delivered, in order. *)
Theorem bad_payload_is_skipped
    (frames : list (list doc)) (vs : list value) wc p
    (dk d : doc) (k : string) (t : rtype) (e : goerror) :
  not_shut_down wc ->
  Chan.closed (Recv wc) = false ->
  Chan.closed (Error wc) = false ->
  (length (Chan.buf (Recv wc)) + length vs <= Chan.cap (Recv wc))%nat ->
  Pipe.is_closed (soc wc) p = false ->
  Pipe.is_closed (Pipe.other (soc wc)) p = false ->
  Pipe.inbox (soc wc) p = dk :: d :: concat frames ->
  UnmarshalString dk = inr k ->
  allowedTypes wc !! k = Some t ->
  Unmarshal d t = inl e ->
  closed_class e = false ->
  Forall2 (decodes_to wc) frames vs ->
  exists wc' p',
    recvRoutine (S (S (length vs))) wc p = (Park, wc', p') /\
    Chan.buf (Recv wc') = (Chan.buf (Recv wc) ++ vs)%list /\
    Error wc' = offered (recvError e) (Error wc) /\
    Pipe.inbox (soc wc) p' = [].
Proof.
  intros Hs Hr He Hroom Hc Ho Hin Hdk Hk Hd Hcc Hfs.
  set (p1 := Pipe.set_inbox (soc wc) (d :: concat frames) p).
  set (p2 := Pipe.set_inbox (soc wc) (concat frames) p).
  set (wc1 := set_Error (offered (recvError e) (Error wc)) wc).
  assert (Hit : recvIter wc p = (Continue, wc1, p2)).
  { apply (recvIter_payload_error wc p k t p1 e p2); try done.
    - rewrite (DecodeString_doc wc p dk p1); [by rewrite Hdk|].
      simpl. by apply read_doc.
    - rewrite (DecodeInto_doc wc t p1 d p2); [by rewrite Hd|].
      simpl. unfold p1, p2. rewrite (read_doc _ _ d (concat frames)).
      + by rewrite set_inbox_set_inbox.
      + by rewrite is_closed_set_inbox.
      + by rewrite inbox_set_inbox. }
  pose proof (recvRoutine_pipe frames vs 1%nat wc1 p2) as Hrest.
  eexists _, _. split.
  - unfold recvRoutine.
    change (loop (S (S (length vs))) (fun _ => recvIter) 0 wc p)
      with (match recvIter wc p with
            | (Continue, wc', n') =>
                loop (S (length vs)) (fun _ => recvIter) 1 wc' n'
            | r => r
            end).
    rewrite Hit. apply Hrest; try done.
    + unfold p2. by rewrite is_closed_set_inbox.
    + unfold p2. by rewrite is_closed_set_inbox.
    + unfold p2. by rewrite inbox_set_inbox.
  - simpl. split; [done|]. split; [done|].
    unfold p2. by rewrite set_inbox_set_inbox, inbox_set_inbox.
Qed.

(** X9.  The two documents of a frame are written one at a time.  When
    the codec accepts the name but refuses the value, the name has
    already gone out: the iteration leaves the name on the stream with
    no payload behind it, offers the refusal to the error queue as a
    [*sendError] and goes round again. *)
Theorem refused_payload_leaves_name_on_stream
    (rng : list string) wc p (data : value) (rest : list value)
    (k : string) (dk : doc) (e : goerror) :
  Chan.buf (Send wc) = data :: rest ->
  getAllowedTypeName wc rng data = (k, true) ->
  Marshal (VString k) = inr dk ->
  Marshal data = inl e ->
  Chan.closed (Error wc) = false ->
  Pipe.is_closed (soc wc) p = false ->
  Pipe.is_closed (Pipe.other (soc wc)) p = false ->
  sendIter rng wc p
  = (Continue,
     set_Error (offered (sendError e) (Error wc)) (dequeued wc rest),
     Pipe.set_inbox (Pipe.other (soc wc))
                    (Pipe.inbox (Pipe.other (soc wc)) p ++ [dk]) p).
Proof.
  intros Hbuf Hk Hdk Hd He Hc Ho.
  rewrite (sendIter_found rng wc p data rest k Hbuf Hk).
  rewrite (Encode_pipe _ _ dk) by done.
  unfold Encode at 1. rewrite Hd.
  by rewrite tryPushError_open.
Qed.

(** X4.  Closing the outbound queue does not discard what it holds.
    When the queue has been closed with values still in it, values that
    the endpoint can put on the wire, and the stream is open, the send
    goroutine first writes the frame of every queued value, in queue
    order, and only then returns: it leaves the queue empty, the stream
    longer by exactly those frames, and the error queue as it was. *)
Theorem send_goroutine_drains_closed_queue
    (rng : nat -> list string) wc p :
  Chan.closed (Send wc) = true ->
  Forall (sendable wc) (Chan.buf (Send wc)) ->
  (forall j, range_of wc (rng j)) ->
  Pipe.is_closed (soc wc) p = false ->
  Pipe.is_closed (Pipe.other (soc wc)) p = false ->
  exists frames wc' p',
    sendRoutine (S (length (Chan.buf (Send wc)))) rng wc p = (Return, wc', p') /\
    Chan.buf (Send wc') = [] /\
    Forall2 (encodes_to wc) (Chan.buf (Send wc)) frames /\
    Pipe.inbox (Pipe.other (soc wc)) p'
    = (Pipe.inbox (Pipe.other (soc wc)) p ++ concat frames)%list /\
    Pipe.inbox (soc wc) p' = Pipe.inbox (soc wc) p /\
    Error wc' = Error wc.
Proof.
  intros Hcl Hvs Hrng Hc Ho.
  destruct (sendRoutine_pipe (Chan.buf (Send wc)) rng 0%nat wc p)
    as (frames & Hframes & Hloop); try done.
  rewrite Hcl in Hloop.
  exists frames. eexists _, _. split; [exact Hloop|].
  split; [done|]. split; [done|]. split; [by rewrite inbox_set_inbox|].
  split; [by rewrite inbox_set_inbox_other|done].
Qed.

End PipeFrames.

Section RegistryAndConstruction.

Context {rt : GoRuntime} {codec : Codec} {conn : Type}.
Implicit Types wc : WebChan (conn := conn).

(** X10.  The two lookups of the registry agree.  The name that
    [getAllowedTypeName] finds for a value leads
    [createTypeInterfaceReflectPointer] back to a fresh instance of the
    value's own type, whatever the order in which the registry was
    visited; and every type that can be received under some name can be
    sent, under a name that leads back to it. *)
Theorem registry_lookups_agree wc (rng : list string) :
  (forall data k,
      getAllowedTypeName wc rng data = (k, true) ->
      createTypeInterfaceReflectPointer wc k = (New (TypeOf data), true)) /\
  (forall k data,
      range_of wc rng ->
      createTypeInterfaceReflectPointer wc k = (New (TypeOf data), true) ->
      exists k', getAllowedTypeName wc rng data = (k', true) /\
                 createTypeInterfaceReflectPointer wc k' = (New (TypeOf data), true)).
Proof.
  split.
  - intros data k Hk. apply getAllowedTypeName_true in Hk.
    unfold createTypeInterfaceReflectPointer. by rewrite Hk.
  - intros k data Hrng. unfold createTypeInterfaceReflectPointer.
    destruct (allowedTypes wc !! k) as [t|] eqn:Hk; [|done].
    intros [= ->].
    destruct (getAllowedTypeName_registered wc rng data Hrng) as (k' & Hk' & Hl).
    { by exists k. }
    exists k'. split; [done|]. by rewrite Hl.
Qed.

Lemma last_filter_Some {A} (P : A -> Prop) `{!forall x, Decision (P x)}
    (l : list A) (x : A) :
  last (filter P l) = Some x -> P x.
Proof.
  intros Hlast. apply last_Some_elem_of in Hlast.
  by apply list_elem_of_filter in Hlast as [? _].
Qed.

Lemma NewWebChan_lookup (s : conn) (bufLength : Z) (l : list value) wc k :
  NewWebChan s bufLength l = inr wc ->
  allowedTypes wc !! k = TypeOf <$> last (filter (fun v => fmtT v = k) l).
Proof.
  unfold NewWebChan. intros [_ ->]%NewNamedWebChan_inr. simpl.
  by rewrite lookup_fmap, allowedTypesMap_lookup.
Qed.

Lemma NewWebChan_name (s : conn) (bufLength : Z) (l : list value) wc k t :
  NewWebChan s bufLength l = inr wc ->
  allowedTypes wc !! k = Some t -> rtype_String t = k.
Proof.
  intros Hnew. rewrite (NewWebChan_lookup s bufLength l wc k Hnew).
  destruct (last (filter (fun v => fmtT v = k) l)) as [proto|] eqn:Hlast; [|done].
  intros [= <-]. by apply last_filter_Some in Hlast.
Qed.

(** X11.  An endpoint built by [NewWebChan] registers each type under
    the string that [%T] prints for it, so the name that goes on the
    wire for a value is the [%T] of the value, whatever the order in
    which the registry is visited. *)
Theorem NewWebChan_names_are_type_names
    (s : conn) (bufLength : Z) (l : list value) wc :
  NewWebChan s bufLength l = inr wc ->
  (forall k t, allowedTypes wc !! k = Some t -> rtype_String t = k) /\
  (forall rng data k, getAllowedTypeName wc rng data = (k, true) -> k = fmtT data).
Proof.
  intros Hnew. split.
  - intros k t. by apply (NewWebChan_name s bufLength l).
  - intros rng data k Hk. apply getAllowedTypeName_true in Hk.
    symmetry. by apply (NewWebChan_name s bufLength l wc).
Qed.

(** X12.  Which types an endpoint built by [NewWebChan] allows: the
    type of a value is registered exactly when the last prototype in
    the list that prints the same [%T] as the value has the value's
    type.  A prototype followed by one of another type with the same
    printed name is thus not registered. *)
Theorem NewWebChan_registers_last_of_each_name
    (s : conn) (bufLength : Z) (l : list value) wc (v : value) :
  NewWebChan s bufLength l = inr wc ->
  registered wc (TypeOf v) <->
  exists proto, last (filter (fun x => fmtT x = fmtT v) l) = Some proto /\
                TypeOf proto = TypeOf v.
Proof.
  intros Hnew. split.
  - intros [k Hk].
    pose proof (NewWebChan_name s bufLength l wc k _ Hnew Hk) as <-.
    rewrite (NewWebChan_lookup s bufLength l wc _ Hnew) in Hk.
    fold (fmtT v) in Hk.
    destruct (last (filter (fun x => fmtT x = fmtT v) l)) as [proto|]; [|done].
    exists proto. split; [done|]. by injection Hk.
  - intros (proto & Hlast & Ht). exists (fmtT v).
    rewrite (NewWebChan_lookup s bufLength l wc _ Hnew), Hlast. simpl. by rewrite Ht.
Qed.

(** X13.  Construction and the buffer length.  With a negative buffer
    length both constructors panic, in [make].  Whenever a constructor
    returns an endpoint, the buffer length was not negative, the
    endpoint holds the given socket, its four channels are empty and
    open, and the shutdown signal has not been given on it. *)
Theorem construction_panics_on_negative_length
    (s : conn) (bufLength : Z) (m : gmap string value) (l : list value) :
  ((bufLength < 0)%Z ->
   NewNamedWebChan s bufLength m = inl makechan_range /\
   NewWebChan s bufLength l = inl makechan_range) /\
  (forall wc,
      NewNamedWebChan s bufLength m = inr wc \/ NewWebChan s bufLength l = inr wc ->
      (0 <= bufLength)%Z /\ soc wc = s /\ fresh_queues wc /\ not_shut_down wc).
Proof.
  split.
  - intros Hneg. split; [by apply NewNamedWebChan_neg|].
    unfold NewWebChan. by apply NewNamedWebChan_neg.
  - intros wc [H|H]; apply NewNamedWebChan_inr in H as [Hb ->]; by repeat split.
Qed.

End RegistryAndConstruction.

(** X14.  The two error types of the package (errors.go).  A send error
    and a receive error never print the same message; the message of
    either determines the message of its cause; and, as neither type has
    an [Unwrap] method, [errors.Is] finds no other error inside them:
    in particular an error taken from the error queue never matches
    [io.EOF] or [net.ErrClosed]. *)
Theorem send_and_recv_errors_are_told_apart (e e' target : goerror) :
  Error_string (sendError e) <> Error_string (recvError e') /\
  (Error_string (sendError e) = Error_string (sendError e') ->
   Error_string e = Error_string e') /\
  (Error_string (recvError e) = Error_string (recvError e') ->
   Error_string e = Error_string e') /\
  (target <> sendError e -> errors_Is (sendError e) target = false) /\
  (target <> recvError e -> errors_Is (recvError e) target = false) /\
  closed_class (sendError e) = false /\
  closed_class (recvError e) = false.
Proof.
  split; [simpl; by intros [=]|].
  split; [simpl; by intros [=]|].
  split; [simpl; by intros [=]|].
  split; [|split; [|done]].
  - intros Hne. simpl. rewrite orb_false_r. apply bool_decide_eq_false. congruence.
  - intros Hne. simpl. rewrite orb_false_r. apply bool_decide_eq_false. congruence.
Qed.

(* ===================================================================== *)
(** ** The further statements at the concrete configuration *)
(* ===================================================================== *)

(** A send by the caller, then an iteration of the send goroutine. *)
Lemma registry_and_capacities_never_change_witness :
  let a1 := (push_Send (VString "hello") Example.a).2 in
  let wc := (sendIter Example.rng a1 (Pipe.fresh (D := MiniJSON.json))).1.2 in
  allowedTypes wc = allowedTypes Example.a /\
  soc wc = soc Example.a /\
  Chan.cap (Send wc) = Chan.cap (Send Example.a) /\
  Chan.cap (Recv wc) = Chan.cap (Recv Example.a) /\
  Chan.cap (Error wc) = Chan.cap (Error Example.a).
Proof.
  intros a1 wc.
  apply (registry_and_capacities_never_change
           (codec := MiniJSON.codec)
           Example.a wc Pipe.fresh
           (sendIter Example.rng a1 (Pipe.fresh (D := MiniJSON.json))).2).
  eapply rtc_l; [apply (step_push_Send (VString "hello"))|].
  eapply rtc_l; [apply (step_sendIter Example.rng)|].
  apply rtc_refl.
Defined.

(** An iteration of the receive goroutine on a frame with an unknown
    name. *)
Lemma error_queue_open_bounded_and_typed_witness :
  let wc := (recvIter Example.b
               (Example.towards_b [MiniJSON.JStr "nope"; MiniJSON.JNum 5])).1.2 in
  Chan.closed (Error wc) = false /\
  (length (Chan.buf (Error wc)) <= 100)%nat /\
  Forall (fun e => is_send e \/ is_recv e) (Chan.buf (Error wc)).
Proof.
  intros wc.
  apply (error_queue_open_bounded_and_typed
           (codec := MiniJSON.codec)
           Pipe.B 100 Example.registry Example.b wc
           (Example.towards_b [MiniJSON.JStr "nope"; MiniJSON.JNum 5])
           (recvIter Example.b
              (Example.towards_b [MiniJSON.JStr "nope"; MiniJSON.JNum 5])).2).
  - vm_compute. reflexivity.
  - eapply rtc_l; [apply step_recvIter|]. apply rtc_refl.
Defined.

Lemma Example_sendable_closed :
  Forall (sendable (codec := MiniJSON.codec) Example.a_sent_closed)
         (Chan.buf (Send Example.a_sent_closed)).
Proof.
  repeat constructor.
  - exists "greeting". vm_compute. reflexivity.
  - eexists. reflexivity.
  - intros k _. eexists. reflexivity.
  - exists "point". vm_compute. reflexivity.
  - eexists. reflexivity.
  - intros k _. eexists. reflexivity.
Qed.

(** Two values queued on a closed outbound queue, the stream open. *)
Lemma send_goroutine_drains_closed_queue_witness :
  exists frames wc' p',
    sendRoutine 3 (fun _ => Example.rng) Example.a_sent_closed
                (Pipe.fresh (D := MiniJSON.json))
    = (Return, wc', p') /\
    Chan.buf (Send wc') = [] /\
    Forall2 (encodes_to Example.a_sent_closed)
            [VString "hello"; Example.point12] frames /\
    Pipe.inbox Pipe.B p' = concat frames /\
    Pipe.inbox Pipe.A p' = [] /\
    Error wc' = Error Example.a_sent_closed.
Proof.
  apply (send_goroutine_drains_closed_queue
           (codec := MiniJSON.codec)
           (fun _ => Example.rng) Example.a_sent_closed Pipe.fresh).
  - reflexivity.
  - apply Example_sendable_closed.
  - intros j. apply Example_range.
  - reflexivity.
  - reflexivity.
Defined.

Lemma receive_goroutine_returns_after_Close_witness :
  exists wc1 n1,
    Close Example.a (Pipe.fresh (D := MiniJSON.json)) = (Return, wc1, n1) /\
    Recv wc1 = Recv Example.a /\
    recvIter wc1 Example.a_closed
    = (Return, Recv_closed_by_return wc1, Example.a_closed).
Proof.
  apply (receive_goroutine_returns_after_Close
           (codec := MiniJSON.codec)
           Example.a Pipe.fresh Example.a_closed);
    reflexivity.
Defined.

Lemma Close_after_Send_closed_by_hand_witness :
  exists wc1,
    Close Example.a_sent_closed (Pipe.fresh (D := MiniJSON.json))
    = (Panic close_of_closed, wc1, Pipe.fresh) /\
    Chan.closed (closeRecvChan wc1) = true /\
    forall n2, Close wc1 n2 = (Return, wc1, n2).
Proof.
  apply (Close_after_Send_closed_by_hand
           (codec := MiniJSON.codec)
           Example.a_sent_closed Pipe.fresh);
    reflexivity.
Defined.

(** A greeting whose payload is a number, followed by a point. *)
Lemma bad_payload_is_skipped_witness :
  exists wc' p',
    recvRoutine 3 Example.b
      (Example.towards_b
         [MiniJSON.JStr "greeting"; MiniJSON.JNum 5;
          MiniJSON.JStr "point"; MiniJSON.marshal Example.point12])
    = (Park, wc', p') /\
    Chan.buf (Recv wc') = [Example.point12] /\
    Error wc'
    = Chan.Mk [recvError (ErrorString
                 "json: cannot unmarshal number into Go value of type string")]
              100 false /\
    Pipe.inbox Pipe.B p' = [].
Proof.
  apply (bad_payload_is_skipped
           (codec := MiniJSON.codec)
           [[MiniJSON.JStr "point"; MiniJSON.marshal Example.point12]]
           [Example.point12] Example.b
           (Example.towards_b
              [MiniJSON.JStr "greeting"; MiniJSON.JNum 5;
               MiniJSON.JStr "point"; MiniJSON.marshal Example.point12])
           (MiniJSON.JStr "greeting") (MiniJSON.JNum 5) "greeting" TString
           (ErrorString "json: cannot unmarshal number into Go value of type string")).
  - reflexivity.
  - reflexivity.
  - reflexivity.
  - simpl. lia.
  - reflexivity.
  - reflexivity.
  - reflexivity.
  - reflexivity.
  - vm_compute. reflexivity.
  - reflexivity.
  - reflexivity.
  - repeat constructor.
    exists (MiniJSON.JStr "point"), (MiniJSON.marshal Example.point12), "point",
           (TNamed "webchan" "webchan" "point").
    repeat split; try (vm_compute; reflexivity).
Defined.

(** A point without fields, which the picky codec refuses. *)
Lemma refused_payload_leaves_name_on_stream_witness :
  sendIter (codec := Example.picky) Example.rng Example.a_sent_no_fields
           (Pipe.fresh (D := MiniJSON.json))
  = (Continue,
     set_Error (Chan.Mk [sendError (ErrorString "json: unsupported value")] 100 false)
               Example.a,
     Example.towards_b [MiniJSON.JStr "point"]).
Proof.
  apply (refused_payload_leaves_name_on_stream
           (codec := Example.picky)
           Example.rng Example.a_sent_no_fields Pipe.fresh
           Example.no_fields [] "point" (MiniJSON.JStr "point")
           (ErrorString "json: unsupported value")).
  - reflexivity.
  - vm_compute. reflexivity.
  - reflexivity.
  - reflexivity.
  - reflexivity.
  - reflexivity.
  - reflexivity.
Defined.

Lemma registry_lookups_agree_witness :
  createTypeInterfaceReflectPointer Example.a "point"
  = (New (TypeOf Example.point12), true) /\
  exists k', getAllowedTypeName Example.a Example.rng (VString "x") = (k', true) /\
             createTypeInterfaceReflectPointer Example.a k'
             = (New (TypeOf (VString "x")), true).
Proof.
  destruct (registry_lookups_agree Example.a Example.rng)
    as [Hto Hfrom].
  split.
  - apply (Hto Example.point12 "point"). vm_compute. reflexivity.
  - apply (Hfrom "greeting" (VString "x")).
    + apply Example_range.
    + vm_compute. reflexivity.
Defined.

Lemma Example_by_list :
  NewWebChan Pipe.A 100 Example.prototypes = inr Example.by_list.
Proof. vm_compute. reflexivity. Qed.

Lemma NewWebChan_names_are_type_names_witness :
  rtype_String (TNamed "webchan" "webchan" "point") = "webchan.point" /\
  "string" = fmtT (VString "hello").
Proof.
  destruct (NewWebChan_names_are_type_names
              Pipe.A 100 Example.prototypes Example.by_list Example_by_list)
    as [Hnames Hwire].
  split.
  - apply (Hnames "webchan.point" (TNamed "webchan" "webchan" "point")).
    vm_compute. reflexivity.
  - apply (Hwire ["webchan.point"; "string"] (VString "hello") "string").
    vm_compute. reflexivity.
Defined.

Lemma NewWebChan_registers_last_of_each_name_witness :
  registered Example.by_list (TypeOf (VString "hello")).
Proof.
  apply (NewWebChan_registers_last_of_each_name
           Pipe.A 100 Example.prototypes Example.by_list (VString "hello")
           Example_by_list).
  exists (VString ""). split; [vm_compute; reflexivity | reflexivity].
Defined.

Lemma construction_panics_on_negative_length_witness :
  (NewNamedWebChan (conn := Pipe.side) Pipe.A (-1) Example.registry
   = inl makechan_range /\
   NewWebChan (conn := Pipe.side) Pipe.A (-1) Example.prototypes
   = inl makechan_range) /\
  ((0 <= 100)%Z /\ soc Example.a = Pipe.A /\
   fresh_queues Example.a /\ not_shut_down Example.a).
Proof.
  split.
  - apply (proj1 (construction_panics_on_negative_length
                    Pipe.A (-1) Example.registry Example.prototypes)).
    lia.
  - apply (proj2 (construction_panics_on_negative_length
                    Pipe.A 100 Example.registry Example.prototypes) Example.a).
    left. vm_compute. reflexivity.
Defined.

Lemma send_and_recv_errors_are_told_apart_witness :
  errors_Is (sendError EOF) EOF = false /\
  errors_Is (recvError ErrClosed) ErrClosed = false.
Proof.
  destruct (send_and_recv_errors_are_told_apart EOF EOF EOF)
    as (_ & _ & _ & Hs & _).
  destruct (send_and_recv_errors_are_told_apart ErrClosed ErrClosed ErrClosed)
    as (_ & _ & _ & _ & Hr & _).
  split; [apply Hs | apply Hr]; discriminate.
Defined.
